(** * SpeedFrogger: a shallow embedding of [js/app.js]

    The game keeps its whole state in a handful of global objects
    ([player], [scoreboard], [allEnemies], [bonusItems]) that are mutated by
    the per-frame [update] methods and by browser timer callbacks.  The
    embedding makes that state an explicit record and every method a function
    on it.

    Numbers.  Grid indices, the score and the clock only ever hold integers
    and are modelled in [Z].  Pixel coordinates, speeds, time deltas and the
    results of [Math.random()] are fractional; they are modelled by exact
    rationals [Q], so the rounding of IEEE-754 doubles is not part of that
    model; where a property of [isCollision] turns on the rounding it is
    stated on the module [Binary64] below, which computes on doubles as the
    script does.  [Math.random()] is an oracle: a stream of rationals, each
    assumed to lie in the half-open unit interval where a theorem needs
    it. *)

From Stdlib Require Import ZArith QArith Qround Qabs Lqa Lia.
From Stdlib Require Import Bool List String.
From Stdlib Require DecimalString.
From Stdlib Require PrimFloat FloatOps SpecFloat.
Import ListNotations.

Open Scope Z_scope.

(** ** Numeric helpers *)

(** JavaScript's strict [<] and [>] on numbers, as booleans. *)
Definition Qltb (a b : Q) : bool := negb (Qle_bool b a).
Definition Qgtb (a b : Q) : bool := Qltb b a.

(** [Math.floor]. *)
Definition Math_floor (q : Q) : Z := Qfloor q.

(** The source of [Math.random()]: the stream of values still to be
    returned. *)
Definition Rng := nat -> Q.

Definition Math_random (g : Rng) : Q * Rng :=
  (g O, fun n => g (S n)).

(** What the language guarantees about [Math.random()]: every value lies in
    the half-open interval from 0 to 1. *)
Definition unit_interval (g : Rng) : Prop :=
  forall n, (0 <= g n /\ g n < 1)%Q.

(** ** MapCharacter *)

Record MapCharacter := mkMapCharacter { x : Q; y : Q }.

Module MapCharacterProto.
Definition collisionBuffer : Z := 26.
Definition MAP_ROWS : Z := 6.
Definition MAP_COLS : Z := 5.
Definition X_START : Z := 0.
Definition X_OFFSET : Z := 101.
Definition Y_START : Z := 45.
Definition Y_OFFSET : Z := 83.
Definition CHAR_SIZE_X : Z := 101.
Definition CHAR_SIZE_Y : Z := 83.
End MapCharacterProto.
Import MapCharacterProto.

Definition getYOffsetForRow (rowNum : Z) : Z :=
  Y_START + (rowNum * Y_OFFSET).

Definition getXOffsetForCol (colNum : Z) : Z :=
  X_START + (colNum * X_OFFSET).

(** The rectangle literal [{xPos, yPos, width, height}]. *)
Record Rect := mkRect { xPos : Q; yPos : Q; width : Q; height : Q }.

Definition getCollisionDims (this : MapCharacter) : Rect :=
  let halfBuff := (inject_Z collisionBuffer / 2)%Q in
  {| xPos := (x this + halfBuff)%Q;
     yPos := (y this + halfBuff)%Q;
     width := inject_Z (CHAR_SIZE_X - collisionBuffer);
     height := inject_Z (CHAR_SIZE_Y - collisionBuffer) |}.

(** ** The global function [isCollision] *)

Definition isCollision (rect1 rect2 : Rect) : bool :=
  let noIntersectionX :=
    Qgtb (xPos rect1) (xPos rect2 + width rect2)
    || Qltb (xPos rect1) (xPos rect2 - width rect1) in
  let noIntersectionY :=
    Qgtb (yPos rect1) (yPos rect2 + height rect2)
    || Qltb (yPos rect1) (yPos rect2 - height rect1) in
  negb noIntersectionX && negb noIntersectionY.

(** ** Enemy *)

Record Enemy := mkEnemy { e_char : MapCharacter; speed : Q }.

Module EnemyProto.
Definition MIN_SPEED : Z := 75.
Definition MAX_SPEED : Z := 320.
End EnemyProto.
Import EnemyProto.

(** [Enemy.prototype.reset]: [x], then [y] (first draw), then [speed]
    (second draw). *)
Definition Enemy_reset (this : Enemy) (g : Rng) : Enemy * Rng :=
  let x' := inject_Z (X_START - X_OFFSET) in
  let (r1, g1) := Math_random g in
  let y' :=
    inject_Z (getYOffsetForRow (Math_floor (r1 * inject_Z (4 - 1)) + 1)) in
  let (r2, g2) := Math_random g1 in
  let speed' :=
    (r2 * inject_Z (MAX_SPEED - MIN_SPEED) + inject_Z MIN_SPEED)%Q in
  ({| e_char := {| x := x'; y := y' |}; speed := speed' |}, g2).

(** [new Enemy()]: [MapCharacter.call(this)] zeroes the position, then
    [reset] assigns every field ([speed] has no value before it). *)
Definition Enemy_new (g : Rng) : Enemy * Rng :=
  Enemy_reset {| e_char := {| x := 0; y := 0 |}; speed := 0 |} g.

(** The comparison bound of [Enemy.prototype.update]. *)
Definition rightBoundary : Z := getXOffsetForCol MAP_COLS + X_OFFSET.

Definition Enemy_update (dt : Q) (this : Enemy) (g : Rng) : Enemy * Rng :=
  let moved :=
    {| e_char := {| x := (x (e_char this) + dt * speed this)%Q;
                    y := y (e_char this) |};
       speed := speed this |} in
  if Qgtb (x (e_char moved)) (inject_Z rightBoundary)
  then Enemy_reset moved g
  else (moved, g).

(** ** Player *)

Record Player := mkPlayer {
  p_char : MapCharacter;
  row : Z;
  col : Z;
  movingEnabled : bool
}.

Definition Player_reset (this : Player) : Player :=
  let row' := MAP_ROWS - 1 in
  let col' := Math_floor (inject_Z MAP_COLS / 2) in
  {| p_char := {| x := inject_Z (getXOffsetForCol col');
                  y := inject_Z (getYOffsetForRow row') |};
     row := row';
     col := col';
     movingEnabled := movingEnabled this |}.

Definition Player_update (this : Player) : Player :=
  {| p_char := {| x := inject_Z (getXOffsetForCol (col this));
                  y := inject_Z (getYOffsetForRow (row this)) |};
     row := row this;
     col := col this;
     movingEnabled := movingEnabled this |}.

Definition enableMoves (shouldEnable : bool) (this : Player) : Player :=
  {| p_char := p_char this;
     row := row this;
     col := col this;
     movingEnabled := shouldEnable |}.

Definition set_row (r : Z) (this : Player) : Player :=
  {| p_char := p_char this; row := r; col := col this;
     movingEnabled := movingEnabled this |}.

Definition set_col (c : Z) (this : Player) : Player :=
  {| p_char := p_char this; row := row this; col := c;
     movingEnabled := movingEnabled this |}.

Definition handleInput (inputKey : string) (this : Player) : Player :=
  if movingEnabled this then
    if (inputKey =? "left")%string then
      if 0 <? col this then set_col (col this - 1) this else this
    else if (inputKey =? "right")%string then
      if col this <? MAP_COLS - 1 then set_col (col this + 1) this else this
    else if (inputKey =? "up")%string then
      if 0 <? row this then set_row (row this - 1) this else this
    else if (inputKey =? "down")%string then
      if row this <? MAP_ROWS - 1 then set_row (row this + 1) this else this
    else this
  else this.

(** [new Player()]: zeroed position, [reset], moves enabled. *)
Definition Player_new : Player :=
  enableMoves true
    (Player_reset {| p_char := {| x := 0; y := 0 |};
                     row := 0; col := 0; movingEnabled := false |}).

(** ** BonusItem *)

Record BonusItem := mkBonusItem { b_char : MapCharacter }.

(** [new BonusItem()]: a random column, then a random row in the band. *)
Definition BonusItem_new (g : Rng) : BonusItem * Rng :=
  let (r1, g1) := Math_random g in
  let x' :=
    inject_Z (getXOffsetForCol (Math_floor (r1 * inject_Z MAP_COLS))) in
  let (r2, g2) := Math_random g1 in
  let y' :=
    inject_Z (getYOffsetForRow (Math_floor (r2 * inject_Z (3 - 1)) + 1)) in
  ({| b_char := {| x := x'; y := y' |} |}, g2).

(** ** Scoreboard and the global state *)

Record Scoreboard := mkScoreboard {
  score : Z;
  won : bool;
  lost : bool;
  bonus : bool;
  currentTime : Z;
  running : bool;
  gameOver : bool
}.

Definition GAME_TIME : Z := 60.

(** The closures handed to [setInterval] and [setTimeout]. *)
Inductive Callback :=
| CountdownTick    (* the function in [countdown] *)
| BonusSpawnTick   (* the outer function in [manageBonusItems] *)
| BonusExpire      (* the inner function in [manageBonusItems] *)
| EndWin           (* the function in [endWinState] *)
| EndLose          (* the function in [endLoseState] *)
| EndBonus.        (* the function in [endBonusState] *)

(** An entry of the browser's timer table.  [delay] is in milliseconds;
    an interval has [repeating := true], a timeout fires once. *)
Record Timer := mkTimer {
  tid : nat;
  repeating : bool;
  delay : Z;
  action : Callback
}.

(** The global variables of the script together with the two pieces of the
    platform it talks to: the timer table and the random source. *)
Record World := mkWorld {
  player : Player;
  scoreboard : Scoreboard;
  bonusItems : list BonusItem;
  allEnemies : list Enemy;
  timers : list Timer;
  nextTimer : nat;
  rng : Rng
}.

(** *** Field updates *)

Definition with_player (f : Player -> Player) (w : World) : World :=
  {| player := f (player w); scoreboard := scoreboard w;
     bonusItems := bonusItems w; allEnemies := allEnemies w;
     timers := timers w; nextTimer := nextTimer w; rng := rng w |}.

Definition with_scoreboard (f : Scoreboard -> Scoreboard) (w : World)
  : World :=
  {| player := player w; scoreboard := f (scoreboard w);
     bonusItems := bonusItems w; allEnemies := allEnemies w;
     timers := timers w; nextTimer := nextTimer w; rng := rng w |}.

Definition set_bonusItems (l : list BonusItem) (w : World) : World :=
  {| player := player w; scoreboard := scoreboard w;
     bonusItems := l; allEnemies := allEnemies w;
     timers := timers w; nextTimer := nextTimer w; rng := rng w |}.

Definition set_allEnemies (l : list Enemy) (w : World) : World :=
  {| player := player w; scoreboard := scoreboard w;
     bonusItems := bonusItems w; allEnemies := l;
     timers := timers w; nextTimer := nextTimer w; rng := rng w |}.

Definition set_timers (l : list Timer) (n : nat) (w : World) : World :=
  {| player := player w; scoreboard := scoreboard w;
     bonusItems := bonusItems w; allEnemies := allEnemies w;
     timers := l; nextTimer := n; rng := rng w |}.

Definition set_rng (g : Rng) (w : World) : World :=
  {| player := player w; scoreboard := scoreboard w;
     bonusItems := bonusItems w; allEnemies := allEnemies w;
     timers := timers w; nextTimer := nextTimer w; rng := g |}.

Definition set_score (n : Z) (s : Scoreboard) : Scoreboard :=
  {| score := n; won := won s; lost := lost s; bonus := bonus s;
     currentTime := currentTime s; running := running s;
     gameOver := gameOver s |}.

Definition set_won (b : bool) (s : Scoreboard) : Scoreboard :=
  {| score := score s; won := b; lost := lost s; bonus := bonus s;
     currentTime := currentTime s; running := running s;
     gameOver := gameOver s |}.

Definition set_lost (b : bool) (s : Scoreboard) : Scoreboard :=
  {| score := score s; won := won s; lost := b; bonus := bonus s;
     currentTime := currentTime s; running := running s;
     gameOver := gameOver s |}.

Definition set_bonus (b : bool) (s : Scoreboard) : Scoreboard :=
  {| score := score s; won := won s; lost := lost s; bonus := b;
     currentTime := currentTime s; running := running s;
     gameOver := gameOver s |}.

Definition set_currentTime (n : Z) (s : Scoreboard) : Scoreboard :=
  {| score := score s; won := won s; lost := lost s; bonus := bonus s;
     currentTime := n; running := running s; gameOver := gameOver s |}.

Definition set_running (b : bool) (s : Scoreboard) : Scoreboard :=
  {| score := score s; won := won s; lost := lost s; bonus := bonus s;
     currentTime := currentTime s; running := b; gameOver := gameOver s |}.

Definition set_gameOver (b : bool) (s : Scoreboard) : Scoreboard :=
  {| score := score s; won := won s; lost := lost s; bonus := bonus s;
     currentTime := currentTime s; running := running s; gameOver := b |}.

(** Statements of the script read top to bottom as a pipeline. *)
Notation "w |> f" := (f w) (at level 45, left associativity, only parsing).

(** *** The timer table *)

Definition setInterval (cb : Callback) (ms : Z) (w : World) : World :=
  set_timers
    (timers w ++ [ {| tid := nextTimer w; repeating := true;
                      delay := ms; action := cb |} ])
    (S (nextTimer w)) w.

Definition setTimeout (cb : Callback) (ms : Z) (w : World) : World :=
  set_timers
    (timers w ++ [ {| tid := nextTimer w; repeating := false;
                      delay := ms; action := cb |} ])
    (S (nextTimer w)) w.

Definition removeTimer (id : nat) (l : list Timer) : list Timer :=
  filter (fun t => negb (Nat.eqb (tid t) id)) l.

Definition clearInterval (id : nat) (w : World) : World :=
  set_timers (removeTimer id (timers w)) (nextTimer w) w.

Definition findTimer (id : nat) (l : list Timer) : option Timer :=
  find (fun t => Nat.eqb (tid t) id) l.

(** *** Scoreboard methods *)

(** The script's last lines: the globals as they are once it has loaded.
    [new Scoreboard()] disables the moves of the player made just before. *)
Definition initialWorld (g : Rng) : World :=
  {| player := enableMoves false Player_new;
     scoreboard := {| score := 0; won := false; lost := false;
                      bonus := false; currentTime := GAME_TIME;
                      running := false; gameOver := false |};
     bonusItems := [];
     allEnemies := [];
     timers := [];
     nextTimer := O;
     rng := g |}.

Definition endWinState (w : World) : World := setTimeout EndWin 750 w.
Definition endLoseState (w : World) : World := setTimeout EndLose 750 w.
Definition endBonusState (w : World) : World := setTimeout EndBonus 500 w.

Definition countdown (w : World) : World := setInterval CountdownTick 1000 w.

Definition manageBonusItems (w : World) : World :=
  setInterval BonusSpawnTick 6000 w.

(** [allEnemies.push(new Enemy())]. *)
Definition pushEnemy (w : World) : World :=
  let (e, g) := Enemy_new (rng w) in
  w |> set_rng g |> set_allEnemies (allEnemies w ++ [e]).

(** [for (var i = 0; i < 7; i++) { body }], as [n] runs of the body. *)
Fixpoint repeat_times (n : nat) (body : World -> World) (w : World)
  : World :=
  match n with
  | O => w
  | S k => repeat_times k body (body w)
  end.

Definition startGame (w : World) : World :=
  w |> with_scoreboard (set_running true)
    |> with_scoreboard (set_currentTime GAME_TIME)
    |> with_scoreboard (set_gameOver false)
    |> repeat_times 7 pushEnemy
    |> with_player (enableMoves true)
    |> countdown
    |> manageBonusItems.

Definition handleGameOver (w : World) : World :=
  w |> with_scoreboard (set_running false)
    |> with_player (enableMoves false)
    |> with_player Player_reset
    |> set_allEnemies []
    |> set_bonusItems []
    |> with_scoreboard (set_gameOver true).

(** The body of the hazard branch once a collision has been found. *)
Definition loseBody (w : World) : World :=
  w |> with_scoreboard (fun s => set_score (score s - 1) s)
    |> with_scoreboard (set_lost true)
    |> with_player Player_reset
    |> with_player (enableMoves false)
    |> endLoseState.

(** The first [for] loop of [checkWinAndCollision], over the enemies from
    index [i] on: the body runs for the first colliding enemy, then
    [break]. *)
Fixpoint enemyLoop (playerDims : Rect) (rest : list Enemy) (w : World)
  : World :=
  match rest with
  | [] => w
  | e :: rest' =>
      if isCollision playerDims (getCollisionDims (e_char e))
      then loseBody w
      else enemyLoop playerDims rest' w
  end.

Definition bonusBody (w : World) : World :=
  w |> with_scoreboard (fun s => set_score (score s + 1) s)
    |> with_scoreboard (set_bonus true)
    |> set_bonusItems []
    |> endBonusState.

(** The second [for] loop, over the bonus items. *)
Fixpoint bonusLoop (playerDims : Rect) (rest : list BonusItem) (w : World)
  : World :=
  match rest with
  | [] => w
  | b :: rest' =>
      if isCollision playerDims (getCollisionDims (b_char b))
      then bonusBody w
      else bonusLoop playerDims rest' w
  end.

Definition checkWinAndCollision (w : World) : World :=
  if running (scoreboard w) then
    if row (player w) <=? 0 then
      w |> with_scoreboard (set_won true)
        |> with_scoreboard (fun s => set_score (score s + 1) s)
        |> with_player Player_reset
        |> with_player (enableMoves false)
        |> endWinState
    else
      let playerDims := getCollisionDims (p_char (player w)) in
      let w1 := enemyLoop playerDims (allEnemies w) w in
      bonusLoop playerDims (bonusItems w1) w1
  else w.

Definition Scoreboard_update (w : World) : World := checkWinAndCollision w.

(** *** Timer callbacks *)

(** The body of a callback; [id] is the [intervalID] its closure holds. *)
Definition runCallback (id : nat) (cb : Callback) (w : World) : World :=
  match cb with
  | CountdownTick =>
      if currentTime (scoreboard w) =? 0 then
        w |> clearInterval id |> handleGameOver
      else
        w |> with_scoreboard (fun s => set_currentTime (currentTime s - 1) s)
  | BonusSpawnTick =>
      if running (scoreboard w) then
        let w1 := set_bonusItems [] w in
        let (b, g) := BonusItem_new (rng w1) in
        w1 |> set_rng g
           |> set_bonusItems (bonusItems w1 ++ [b])
           |> setTimeout BonusExpire 4000
      else
        w |> clearInterval id |> set_bonusItems []
  | BonusExpire => set_bonusItems [] w
  | EndWin =>
      let w1 := with_scoreboard (set_won false) w in
      if running (scoreboard w1) then with_player (enableMoves true) w1
      else w1
  | EndLose =>
      let w1 := with_scoreboard (set_lost false) w in
      if running (scoreboard w1) then with_player (enableMoves true) w1
      else w1
  | EndBonus => with_scoreboard (set_bonus false) w
  end.

(** The platform fires the timer [id]: nothing happens when it is not in
    the table; a timeout leaves the table before its callback runs; an
    interval stays until some callback clears it. *)
Definition fire (id : nat) (w : World) : option World :=
  match findTimer id (timers w) with
  | None => None
  | Some t =>
      let w' := if repeating t then w else clearInterval id w in
      Some (runCallback id (action t) w')
  end.

(** ** [isCollision] on doubles

    The function once more, on the numbers JavaScript computes with
    (binary64, round to nearest even), to show where the exact model above
    and the running code can part: only where a sum or a difference is
    rounded. *)

Module Binary64.
Import PrimFloat.

Record Rect := mkRect {
  xPos : float; yPos : float; width : float; height : float
}.

Definition gt (a b : float) : bool := ltb b a.
Definition lt (a b : float) : bool := ltb a b.

Definition isCollision (rect1 rect2 : Rect) : bool :=
  let noIntersectionX :=
    gt (xPos rect1) (xPos rect2 + width rect2)%float
    || lt (xPos rect1) (xPos rect2 - width rect1)%float in
  let noIntersectionY :=
    gt (yPos rect1) (yPos rect2 + height rect2)%float
    || lt (yPos rect1) (yPos rect2 - height rect1)%float in
  negb noIntersectionX && negb noIntersectionY.

(** Two boxes of the same size, half an ulp of 1 wide, one ulp apart. *)
Definition atOne : Rect :=
  {| xPos := 1%float; yPos := 0%float;
     width := 0x1p-53%float; height := 0%float |}.

Definition pastOne : Rect :=
  {| xPos := 0x1.0000000000001p+0%float; yPos := 0%float;
     width := 0x1p-53%float; height := 0%float |}.

(** The boxes of a player on row 1, column 0 and of an enemy a quarter
    pixel out of reach. *)
Definition playerBox : Rect :=
  {| xPos := 13%float; yPos := 141%float;
     width := 75%float; height := 57%float |}.

Definition enemyBox : Rect :=
  {| xPos := 88.25%float; yPos := 141%float;
     width := 75%float; height := 57%float |}.

(** [MapCharacter] and [getCollisionDims] on doubles. *)
Record MapCharacter := mkMapCharacter { x : float; y : float }.

Definition collisionBuffer : float := 26%float.
Definition CHAR_SIZE_X : float := 101%float.
Definition CHAR_SIZE_Y : float := 83%float.

Definition getCollisionDims (this : MapCharacter) : Rect :=
  let halfBuff := (collisionBuffer / 2)%float in
  {| xPos := (x this + halfBuff)%float;
     yPos := (y this + halfBuff)%float;
     width := (CHAR_SIZE_X - collisionBuffer)%float;
     height := (CHAR_SIZE_Y - collisionBuffer)%float |}.



(** A player on row 1, column 1, and a bug in the same lane whose left
    edge is one unit in the last place short of pixel 26. *)
Definition playerCol1 : MapCharacter :=
  {| x := 101%float; y := 128%float |}.

Definition bugShortOf26 : MapCharacter :=
  {| x := (26 - 0x1p-47)%float; y := 128%float |}.

(** [pastOne] made one pixel tall. *)
Definition tallPastOne : Rect :=
  {| xPos := 0x1.0000000000001p+0%float; yPos := 0%float;
     width := 0x1p-53%float; height := 1%float |}.


End Binary64.

(** * Vocabulary of the properties *)

(** One axis of the test: position [a] with own extent [wa] against
    position [b] with extent [wb]. *)
Definition axisOverlap (a wa b wb : Q) : Prop :=
  (b - wa <= a /\ a <= b + wb)%Q.



Definition boxAt (px py w h : Z) : Rect :=
  {| xPos := inject_Z px; yPos := inject_Z py;
     width := inject_Z w; height := inject_Z h |}.

(** What [reset] leaves in an enemy: the start abscissa, a lane of the
    paved band and a speed between the two bounds. *)
Definition freshEnemy (e : Enemy) : Prop :=
  x (e_char e) = inject_Z (-101) /\
  (exists r : Z, 1 <= r <= 3 /\ y (e_char e) = inject_Z (getYOffsetForRow r)) /\
  (75 <= speed e /\ speed e <= 320)%Q.

(** The enemy after the first statement of [update]. *)
Definition advance (dt : Q) (e : Enemy) : Enemy :=
  {| e_char := {| x := (x (e_char e) + dt * speed e)%Q; y := y (e_char e) |};
     speed := speed e |}.

(** A random source that always answers one half, and an enemy about to
    leave the board. *)
Definition halves : Rng := fun _ => (1 # 2)%Q.

Definition leavingEnemy : Enemy :=
  {| e_char := {| x := 600; y := 128 |}; speed := 100 |}.

(** The calls the rest of the program can make on the player. *)
Inductive PlayerOp :=
| OpHandleInput (inputKey : string)
| OpEnableMoves (shouldEnable : bool)
| OpUpdate
| OpReset.

Definition runOp (p : Player) (op : PlayerOp) : Player :=
  match op with
  | OpHandleInput k => handleInput k p
  | OpEnableMoves b => enableMoves b p
  | OpUpdate => Player_update p
  | OpReset => Player_reset p
  end.

Definition runOps (ops : list PlayerOp) (p : Player) : Player :=
  fold_left runOp ops p.

Definition onGrid (p : Player) : Prop :=
  0 <= row p <= MAP_ROWS - 1 /\ 0 <= col p <= MAP_COLS - 1.

(** One of the four keys the [switch] has a case for. *)
Definition recognised (k : string) : bool :=
  ((k =? "left") || (k =? "right") || (k =? "up") || (k =? "down"))%string.

(** The player's box meets the box of some enemy, of some bonus item. *)
Definition hazardHit (w : World) : bool :=
  existsb
    (fun e => isCollision (getCollisionDims (p_char (player w)))
                (getCollisionDims (e_char e)))
    (allEnemies w).

Definition bonusHit (w : World) : bool :=
  existsb
    (fun b => isCollision (getCollisionDims (p_char (player w)))
                (getCollisionDims (b_char b)))
    (bonusItems w).

(** The win branch of [checkWinAndCollision]. *)
Definition winBody (w : World) : World :=
  w |> with_scoreboard (set_won true)
    |> with_scoreboard (fun s => set_score (score s + 1) s)
    |> with_player Player_reset
    |> with_player (enableMoves false)
    |> endWinState.

(** A game just started, with the player put on row 0 by hand. *)
Definition onWater (g : Rng) : World :=
  with_player (set_row 0) (startGame (initialWorld g)).

(** A running game in which the player stands on row 1, column 0, with a
    bug and a gem both drawn on that very cell. *)
Definition gemAndBug : World :=
  {| player := {| p_char := {| x := 0; y := 128 |};
                  row := 1; col := 0; movingEnabled := true |};
     scoreboard := {| score := 0; won := false; lost := false;
                      bonus := false; currentTime := 30;
                      running := true; gameOver := false |};
     bonusItems := [ {| b_char := {| x := 0; y := 128 |} |} ];
     allEnemies := [ {| e_char := {| x := 0; y := 128 |}; speed := 100 |} ];
     timers := [ {| tid := 0; repeating := true; delay := 1000;
                    action := CountdownTick |};
                 {| tid := 1; repeating := true; delay := 6000;
                    action := BonusSpawnTick |};
                 {| tid := 2; repeating := false; delay := 4000;
                    action := BonusExpire |} ];
     nextTimer := 3;
     rng := halves |}.

(** The same game without the gem, and without the bug. *)
Definition bugOnly : World := set_bonusItems [] gemAndBug.
Definition gemOnly : World := set_allEnemies [] gemAndBug.

(** The two intervals [startGame] registers. *)
Definition startedTimers (n : nat) : list Timer :=
  [ {| tid := n; repeating := true; delay := 1000;
       action := CountdownTick |};
    {| tid := S n; repeating := true; delay := 6000;
       action := BonusSpawnTick |} ].

(** The last three statements of [startGame], on whatever the loop
    left. *)
Definition startGame_tail (w : World) : World :=
  w |> with_player (enableMoves true) |> countdown |> manageBonusItems.

(** The timer [id] fires [n] times in a row. *)
Fixpoint fireN (id : nat) (n : nat) (w : World) : option World :=
  match n with
  | O => Some w
  | S k =>
      match fire id w with
      | Some w' => fireN id k w'
      | None => None
      end
  end.

(** The interval that [countdown] registered is in the table under [id]. *)
Definition countdownActive (id : nat) (w : World) : Prop :=
  exists t, findTimer id (timers w) = Some t /\
            repeating t = true /\ action t = CountdownTick.

Definition tickDown (w : World) : World :=
  with_scoreboard (fun s => set_currentTime (currentTime s - 1) s) w.

(** A game just started, and the state [handleGameOver()] makes of it. *)
Definition freshGame : World := startGame (initialWorld halves).
Definition stoppedGame : World := handleGameOver freshGame.

(** An integer small enough that the sums and differences the script forms
    with its like are integers below 2^53, hence exact on doubles. *)
Definition small (n : Z) : Prop := Z.abs n <= 2 ^ 51.

(** A box whose four fields are small integers: on such boxes
    [isCollision] computes on doubles exactly what it computes on
    rationals. *)
Definition exactBox (A : Rect) : Prop :=
  exists px py w h : Z,
    A = boxAt px py w h /\ small px /\ small py /\ small w /\ small h.

(** A character at integer pixel coordinates. *)
Definition pixelAt (px py : Z) : MapCharacter :=
  {| x := inject_Z px; y := inject_Z py |}.

(** * The rest of the script *)

(** ** The keyup listener *)

(** The object literal [allowedKeys] read at [e.keyCode]; a code that is
    not one of its keys gives [undefined], here [None]. *)
Definition allowedKeys (keyCode : Z) : option string :=
  if keyCode =? 37 then Some "left"%string
  else if keyCode =? 38 then Some "up"%string
  else if keyCode =? 39 then Some "right"%string
  else if keyCode =? 40 then Some "down"%string
  else None.

(** [handleInput] on what the listener passes: [undefined] equals none of
    the [case] labels, so the [switch] falls to its empty [default]. *)
Definition handleInputArg (inputKey : option string) (this : Player)
  : Player :=
  match inputKey with
  | Some k => handleInput k this
  | None => this
  end.

Definition onKeyup (keyCode : Z) (w : World) : World :=
  with_player (handleInputArg (allowedKeys keyCode)) w.

(** ** [Scoreboard.prototype.render]

    The 2D context is reduced to what [render] reads and writes: the fill
    style, the font and the text drawn so far, each text with the style and
    font in force when it was drawn. *)

Record TextCall := mkTextCall {
  text : string;
  style : string;
  face : string;
  atX : Z;
  atY : Z
}.

Record Ctx := mkCtx {
  fillStyle : string;
  font : string;
  canvas : list TextCall
}.

Definition set_fillStyle (v : string) (c : Ctx) : Ctx :=
  {| fillStyle := v; font := font c; canvas := canvas c |}.

Definition set_font (v : string) (c : Ctx) : Ctx :=
  {| fillStyle := fillStyle c; font := v; canvas := canvas c |}.

Definition fillText (t : string) (px py : Z) (c : Ctx) : Ctx :=
  {| fillStyle := fillStyle c;
     font := font c;
     canvas := canvas c ++ [ {| text := t; style := fillStyle c;
                                face := font c; atX := px; atY := py |} ] |}.

(** [Number.prototype.toString] on an integer: its decimal digits, with a
    minus sign when negative. *)
Definition toString (n : Z) : string :=
  DecimalString.NilZero.string_of_int (Z.to_int n).

Definition Scoreboard_render (this : Scoreboard) (ctx : Ctx) : Ctx :=
  let oldStyle := fillStyle ctx in
  let c1 :=
    if 0 <=? score this then set_fillStyle "white"%string ctx
    else set_fillStyle "red"%string ctx in
  let c2 :=
    c1 |> set_font "20px serif"
       |> fillText ("Score: " ++ toString (score this))%string 10 75 in
  let c3 :=
    c2 |> set_fillStyle "white"
       |> set_font "20px serif"
       |> fillText ("Time: " ++ toString (currentTime this))%string 420 75 in
  let c4 :=
    if won this then
      c3 |> set_font "52px serif" |> set_fillStyle "green"
         |> fillText "Success!" 165 275
    else c3 in
  let c5 :=
    if bonus this then
      c4 |> set_font "52px serif" |> set_fillStyle "green"
         |> fillText "Bonus!" 165 275
    else c4 in
  let c6 :=
    if lost this then
      c5 |> set_font "52px serif" |> set_fillStyle "red"
         |> fillText "Ouch!" 175 275
    else c5 in
  let c7 :=
    if gameOver this && negb (won this) && negb (lost this) then
      c6 |> set_font "60px serif" |> set_fillStyle "red"
         |> fillText "GAME OVER" 75 275
    else c6 in
  set_fillStyle oldStyle c7.

(** ** What the platform does with the script *)

(** Modelled from the spec: the frame driver is not among the sources; it
    calls [update(dt)] on every active enemy in turn, each call drawing on
    the same random source. *)
Fixpoint updateEnemies (dt : Q) (l : list Enemy) (g : Rng)
  : list Enemy * Rng :=
  match l with
  | [] => ([], g)
  | e :: rest =>
      let (e', g1) := Enemy_update dt e g in
      let (rest', g2) := updateEnemies dt rest g1 in
      (e' :: rest', g2)
  end.

Definition updateAllEnemies (dt : Q) (w : World) : World :=
  let (l, g) := updateEnemies dt (allEnemies w) (rng w) in
  w |> set_rng g |> set_allEnemies l.

(** The entry points through which the page drives the globals. *)
Inductive Event :=
| EvStartGame
| EvScoreboardUpdate
| EvPlayerUpdate
| EvEnemiesUpdate (dt : Q)
| EvKeyup (keyCode : Z)
| EvTimer (id : nat).

(** A timer that is not in the table does not fire. *)
Definition step (w : World) (ev : Event) : World :=
  match ev with
  | EvStartGame => startGame w
  | EvScoreboardUpdate => Scoreboard_update w
  | EvPlayerUpdate => with_player Player_update w
  | EvEnemiesUpdate dt => updateAllEnemies dt w
  | EvKeyup keyCode => onKeyup keyCode w
  | EvTimer id =>
      match fire id w with
      | Some w' => w'
      | None => w
      end
  end.

Definition run (evs : list Event) (w : World) : World :=
  fold_left step evs w.

(** [startGame] is only ever called on a game that is not running. *)
Fixpoint startsWhenIdle (w : World) (evs : list Event) : Prop :=
  match evs with
  | [] => True
  | ev :: rest =>
      (ev = EvStartGame -> running (scoreboard w) = false) /\
      startsWhenIdle (step w ev) rest
  end.

Definition isStart (ev : Event) : bool :=
  match ev with EvStartGame => true | _ => false end.

Definition isScoreboardUpdate (ev : Event) : bool :=
  match ev with EvScoreboardUpdate => true | _ => false end.

(** ** More vocabulary *)

(** The pixel position of the cell in row [r], column [c]. *)
Definition cellAt (r c : Z) : MapCharacter :=
  {| x := inject_Z (getXOffsetForCol c); y := inject_Z (getYOffsetForRow r) |}.

(** An enemy in one of the three paved lanes with a speed in range. *)
Definition inLane (e : Enemy) : Prop :=
  (exists r : Z, 1 <= r <= 3 /\ y (e_char e) = inject_Z (getYOffsetForRow r)) /\
  (75 <= speed e /\ speed e <= 320)%Q.

(** Every timer in the table has an identifier already handed out. *)
Definition timersBelow (w : World) : Prop :=
  Forall (fun t => (tid t < nextTimer w)%nat) (timers w).

Definition cruisingEnemy : Enemy :=
  {| e_char := {| x := 100; y := inject_Z (getYOffsetForRow 2) |};
     speed := 200 |}.

(** The pixel position is that of some cell of the grid. *)
Definition drawnOnCell (p : Player) : Prop :=
  exists r c : Z, 0 <= r <= 5 /\ 0 <= c <= 4 /\ p_char p = cellAt r c.

(** Some text call draws exactly the string [t]. *)
Definition shown (t : string) (calls : list TextCall) : bool :=
  existsb (fun k => (text k =? t)%string) calls.

(** What holds of the globals at all times. *)
Definition worldInv (w : World) : Prop :=
  onGrid (player w) /\
  0 <= currentTime (scoreboard w) <= GAME_TIME /\
  (List.length (bonusItems w) <= 1)%nat /\
  (gameOver (scoreboard w) = true -> running (scoreboard w) = false) /\
  (running (scoreboard w) = false ->
   movingEnabled (player w) = false /\
   row (player w) = 5 /\ col (player w) = 2 /\
   allEnemies w = [] /\ bonusItems w = []).

(** The random source is sound and every enemy is in a lane, at a legal
    speed, not beyond the right boundary. *)
Definition laneInv (w : World) : Prop :=
  unit_interval (rng w) /\
  Forall (fun e => inLane e /\ (x (e_char e) <= 606)%Q) (allEnemies w).

(** When the running flag is up there are exactly seven enemies. *)
Definition batchInv (w : World) : Prop :=
  running (scoreboard w) = true -> List.length (allEnemies w) = 7%nat.

(** The player as [handleGameOver] leaves it. *)
Definition restingPlayer : Player :=
  {| p_char := cellAt 5 2; row := 5; col := 2; movingEnabled := false |}.

Definition frozen (sc : Z) (w : World) : Prop :=
  running (scoreboard w) = false /\
  gameOver (scoreboard w) = true /\
  player w = restingPlayer /\
  score (scoreboard w) = sc /\
  allEnemies w = [] /\ bonusItems w = [].

(** The state [handleGameOver] leaves when the clock has run out. *)
Definition halted (w : World) : Prop :=
  running (scoreboard w) = false /\
  gameOver (scoreboard w) = true /\
  player w = restingPlayer /\
  allEnemies w = [] /\ bonusItems w = [] /\
  currentTime (scoreboard w) = 0.

(** A game that is not running either never started (no timer was ever
    set) or is halted. *)
Definition haltInv (w : World) : Prop :=
  running (scoreboard w) = false -> timers w = [] \/ halted w.

(** Two games started on top of each other, then the first countdown run
    down to the end of the game: the second countdown is still
    registered. *)
Definition doubleStartRunDown : list Event :=
  EvStartGame :: EvStartGame :: repeat (EvTimer 0) 61.

(** * Properties *)

(** ** Comparisons *)

Lemma Qltb_true (a b : Q) : Qltb a b = true <-> (a < b)%Q.
Proof.
  unfold Qltb. rewrite negb_true_iff, <- not_true_iff_false, Qle_bool_iff.
  split; [apply Qnot_le_lt | apply Qlt_not_le].
Qed.

Lemma Qltb_false (a b : Q) : Qltb a b = false <-> (b <= a)%Q.
Proof.
  unfold Qltb. rewrite negb_false_iff. apply Qle_bool_iff.
Qed.

Lemma Qgtb_true (a b : Q) : Qgtb a b = true <-> (b < a)%Q.
Proof. apply Qltb_true. Qed.

Lemma Qgtb_false (a b : Q) : Qgtb a b = false <-> (a <= b)%Q.
Proof. apply Qltb_false. Qed.

(** ** Grid geometry *)

(** C8.  The two geometry functions are functions of their argument alone:
    row [r] is drawn at y = 45 + 83 r and column [c] at x = 0 + 101 c; rows 0
    and 1 are at 45 and 128, columns 0 and 1 at 0 and 101. *)
Theorem grid_geometry (r c : Z) :
  getYOffsetForRow r = 45 + 83 * r /\
  getXOffsetForCol c = 0 + 101 * c /\
  getYOffsetForRow 0 = 45 /\ getYOffsetForRow 1 = 128 /\
  getXOffsetForCol 0 = 0 /\ getXOffsetForCol 1 = 101.
Proof.
  unfold getYOffsetForRow, getXOffsetForCol, Y_START, Y_OFFSET, X_START,
    X_OFFSET.
  repeat split; lia.
Qed.

(** ** Collision detection *)

Lemma isCollision_spec (A B : Rect) :
  isCollision A B = true <->
  axisOverlap (xPos A) (width A) (xPos B) (width B) /\
  axisOverlap (yPos A) (height A) (yPos B) (height B).
Proof.
  unfold isCollision, axisOverlap.
  rewrite andb_true_iff, !negb_true_iff, !orb_false_iff.
  rewrite !Qgtb_false, !Qltb_false. tauto.
Qed.



(** Swapping the arguments turns each axis condition into itself: both
    orders ask for [- B.extent <= B.pos - A.pos <= A.extent]. *)
Lemma axisOverlap_swap (a wa b wb : Q) :
  axisOverlap a wa b wb <-> axisOverlap b wb a wa.
Proof. unfold axisOverlap. split; intros [? ?]; split; lra. Qed.

Lemma isCollision_swap (A B : Rect) : isCollision A B = isCollision B A.
Proof.
  apply eq_true_iff_eq. rewrite !isCollision_spec.
  now rewrite (axisOverlap_swap (xPos A)), (axisOverlap_swap (yPos A)).
Qed.



Lemma boxAt_exactBox (px py w h : Z) :
  small px -> small py -> small w -> small h -> exactBox (boxAt px py w h).
Proof. intros. exists px, py, w, h. now repeat split. Qed.



(** C10, as the code has it.  On the script's doubles the order of the
    arguments can matter: there are rectangles of unequal heights on which
    the two orders disagree, and there are rectangles of equal width and
    equal height on which they disagree too (the boxes of a player and of a
    bug on the board).  For rectangles whose fields are integers of
    magnitude at most 2^51, where the sums and differences are exact, the
    two orders agree whatever the widths and heights. *)
Theorem isCollision_order (P R : Rect) :
  (exists A B : Binary64.Rect,
      PrimFloat.ltb (Binary64.height A) (Binary64.height B) = true /\
      Binary64.isCollision A B = true /\
      Binary64.isCollision B A = false) /\
  (exists A B : Binary64.Rect,
      Binary64.width A = Binary64.width B /\
      Binary64.height A = Binary64.height B /\
      Binary64.isCollision A B = true /\
      Binary64.isCollision B A = false) /\
  (exactBox P -> exactBox R -> isCollision P R = isCollision R P).
Proof.
  split; [| split].
  - exists Binary64.atOne, Binary64.tallPastOne.
    repeat split; vm_compute; reflexivity.
  - exists (Binary64.getCollisionDims Binary64.playerCol1),
      (Binary64.getCollisionDims Binary64.bugShortOf26).
    repeat split; vm_compute; reflexivity.
  - intros _ _. apply isCollision_swap.
Qed.

Lemma isCollision_order_witness :
  isCollision (boxAt 13 141 75 57) (boxAt 80 141 101 83)
  = isCollision (boxAt 80 141 101 83) (boxAt 13 141 75 57).
Proof.
  assert (Hsmall : forall n, Z.abs n <= 200 -> small n).
  { intros n Hn. unfold small. change (2 ^ 51) with 2251799813685248. lia. }
  destruct (isCollision_order (boxAt 13 141 75 57) (boxAt 80 141 101 83))
    as (_ & _ & Hexact).
  apply Hexact; apply boxAt_exactBox; apply Hsmall; cbn; lia.
Defined.

(** C10, as stated, has the two orders agree whenever the rectangles have
    equal width and equal height.  The boxes of a player at x = 101 and of
    a bug at x = 26 - 2^-47 in the same lane are both 75 by 57; the player
    against the bug is a collision, the bug against the player is not. *)
Lemma isCollision_order_matters_at_equal_size :
  Binary64.width (Binary64.getCollisionDims Binary64.playerCol1)
  = Binary64.width (Binary64.getCollisionDims Binary64.bugShortOf26) /\
  Binary64.height (Binary64.getCollisionDims Binary64.playerCol1)
  = Binary64.height (Binary64.getCollisionDims Binary64.bugShortOf26) /\
  Binary64.isCollision
    (Binary64.getCollisionDims Binary64.playerCol1)
    (Binary64.getCollisionDims Binary64.bugShortOf26) = true /\
  Binary64.isCollision
    (Binary64.getCollisionDims Binary64.bugShortOf26)
    (Binary64.getCollisionDims Binary64.playerCol1) = false.
Proof. repeat split; vm_compute; reflexivity. Qed.

(** ** Randomness *)

Lemma Math_floor_range (q : Q) (n : Z) :
  (0 <= q)%Q -> (q < inject_Z n)%Q -> 0 <= Math_floor q < n.
Proof.
  intros H0 Hn. unfold Math_floor. split.
  - change 0 with (Qfloor 0). now apply Qfloor_resp_le.
  - rewrite Zlt_Qlt. apply Qle_lt_trans with q; [apply Qfloor_le | exact Hn].
Qed.

Lemma unit_interval_tail (g : Rng) :
  unit_interval g -> unit_interval (snd (Math_random g)).
Proof. intros H n. apply (H (S n)). Qed.

Lemma Enemy_reset_fresh (e : Enemy) (g : Rng) :
  unit_interval g -> freshEnemy (fst (Enemy_reset e g)).
Proof.
  intros Hg. unfold Enemy_reset, Math_random, freshEnemy. cbn.
  destruct (Hg O) as [H0 H1]. destruct (Hg 1%nat) as [H2 H3].
  split; [reflexivity | split].
  - exists (Math_floor (g O * inject_Z (4 - 1)) + 1). split; [| reflexivity].
    assert (0 <= Math_floor (g O * inject_Z (4 - 1)) < 3); [| lia].
    apply Math_floor_range.
    + change (inject_Z (4 - 1)) with 3%Q. lra.
    + change (inject_Z (4 - 1)) with 3%Q. change (inject_Z 3) with 3%Q. lra.
  - change (inject_Z (MAX_SPEED - MIN_SPEED)) with 245%Q.
    change (inject_Z MIN_SPEED) with 75%Q. unfold inject_Z. split; lra.
Qed.

Lemma Enemy_reset_rng (e : Enemy) (g : Rng) :
  unit_interval g -> unit_interval (snd (Enemy_reset e g)).
Proof. intros Hg n. apply (Hg (S (S n))). Qed.

(** ** Enemy *)

(** C2.  [update(dt)] adds [dt * speed] to [x].  The right boundary is 606:
    the right edge of the last column (404 + 101) plus one more column
    width.  If the new [x] is beyond it the enemy is recycled by [reset],
    otherwise nothing else happens; a reset enemy has [x = -101], a lane
    among rows 1 to 3 and a speed from 75 to 320. *)
Theorem Enemy_update_recycles (dt : Q) (e : Enemy) (g : Rng) :
  unit_interval g ->
  let x' := (x (e_char e) + dt * speed e)%Q in
  rightBoundary = 606 /\
  rightBoundary = getXOffsetForCol (MAP_COLS - 1) + CHAR_SIZE_X + X_OFFSET /\
  x (e_char (advance dt e)) = x' /\
  ((x' <= inject_Z rightBoundary)%Q ->
     Enemy_update dt e g = (advance dt e, g)) /\
  ((inject_Z rightBoundary < x')%Q ->
     Enemy_update dt e g = Enemy_reset (advance dt e) g /\
     freshEnemy (fst (Enemy_update dt e g))) /\
  freshEnemy (fst (Enemy_reset e g)) /\
  X_START - X_OFFSET = -101.
Proof.
  intros Hg x'.
  assert (Hupd : Enemy_update dt e g =
                 if Qgtb x' (inject_Z rightBoundary)
                 then Enemy_reset (advance dt e) g else (advance dt e, g))
    by reflexivity.
  do 3 (split; [reflexivity |]).
  split; [| split; [| split; [| reflexivity]]].
  - intros Hle. apply Qgtb_false in Hle. now rewrite Hupd, Hle.
  - intros Hlt. apply Qgtb_true in Hlt. rewrite Hupd, Hlt.
    split; [reflexivity | now apply Enemy_reset_fresh].
  - now apply Enemy_reset_fresh.
Qed.

Lemma Enemy_update_recycles_witness :
  unit_interval halves /\
  Enemy_update (1 # 10) leavingEnemy halves
  = Enemy_reset (advance (1 # 10) leavingEnemy) halves /\
  freshEnemy (fst (Enemy_update (1 # 10) leavingEnemy halves)).
Proof.
  assert (Hg : unit_interval halves).
  { intros n. split; vm_compute; [discriminate | reflexivity]. }
  split; [exact Hg |].
  destruct (Enemy_update_recycles (1 # 10) leavingEnemy halves Hg)
    as (_ & _ & _ & _ & Hrecycle & _).
  apply Hrecycle. vm_compute. reflexivity.
Defined.

(** ** Player *)

Lemma Player_reset_cell (p : Player) :
  row (Player_reset p) = 5 /\ col (Player_reset p) = 2.
Proof. split; reflexivity. Qed.

Lemma Player_reset_onGrid (p : Player) : onGrid (Player_reset p).
Proof.
  unfold onGrid. destruct (Player_reset_cell p) as [-> ->].
  unfold MAP_ROWS, MAP_COLS. lia.
Qed.

Lemma handleInput_onGrid (k : string) (p : Player) :
  onGrid p -> onGrid (handleInput k p).
Proof.
  unfold onGrid, handleInput, MAP_ROWS, MAP_COLS. intros H.
  destruct (movingEnabled p); [| exact H].
  repeat match goal with
         | |- context [if (?a =? ?b)%string then _ else _] =>
             destruct (a =? b)%string
         | |- context [if ?a <? ?b then _ else _] =>
             destruct (Z.ltb_spec a b)
         end; cbn [set_row set_col row col]; lia.
Qed.

Lemma runOp_onGrid (op : PlayerOp) (p : Player) :
  onGrid p -> onGrid (runOp p op).
Proof.
  destruct op; cbn [runOp]; intros H.
  - now apply handleInput_onGrid.
  - exact H.
  - exact H.
  - apply Player_reset_onGrid.
Qed.

Lemma runOps_onGrid (ops : list PlayerOp) :
  forall p, onGrid p -> onGrid (runOps ops p).
Proof.
  unfold runOps. induction ops as [| op ops IH]; intros p H; cbn [fold_left].
  - exact H.
  - apply IH. now apply runOp_onGrid.
Qed.

Lemma handleInput_disabled (k : string) (p : Player) :
  movingEnabled p = false -> handleInput k p = p.
Proof. intros H. unfold handleInput. now rewrite H. Qed.

Lemma handleInput_unrecognised (k : string) (p : Player) :
  recognised k = false -> handleInput k p = p.
Proof.
  unfold recognised. rewrite !orb_false_iff. intros [[[Hl Hr] Hu] Hd].
  unfold handleInput. rewrite Hl, Hr, Hu, Hd. now destruct (movingEnabled p).
Qed.

(** C3.  Start from [reset()] and make any calls at all on the player,
    [handleInput] with whatever strings and [enableMoves] with whatever
    flags among them: the row stays within 0..5 and the column within 0..4.
    In any state, a key that is none of the four, or any key while moves are
    disabled, changes nothing. *)
Theorem player_stays_on_grid
  (p0 : Player) (ops : list PlayerOp) (q : Player) (k : string) :
  let p := runOps ops (Player_reset p0) in
  (0 <= row p <= 5 /\ 0 <= col p <= 4) /\
  (recognised k = false \/ movingEnabled q = false ->
   handleInput k q = q).
Proof.
  intros p. split.
  - apply (runOps_onGrid ops), Player_reset_onGrid.
  - intros [H | H];
      [now apply handleInput_unrecognised | now apply handleInput_disabled].
Qed.

Lemma player_stays_on_grid_witness :
  handleInput "jump" Player_new = Player_new /\
  handleInput "up" (enableMoves false Player_new)
  = enableMoves false Player_new.
Proof.
  split.
  - apply (player_stays_on_grid Player_new [] Player_new "jump").
    left. reflexivity.
  - apply (player_stays_on_grid Player_new [] (enableMoves false Player_new)
             "up").
    right. reflexivity.
Defined.

(** Nine presses of "up" from the start cell end on row 0, nine of "down"
    stay on row 5. *)
Example up_is_clamped :
  row (runOps (repeat (OpHandleInput "up") 9) Player_new) = 0 /\
  row (runOps (repeat (OpHandleInput "down") 9) Player_new) = 5 /\
  col (runOps (repeat (OpHandleInput "left") 9) Player_new) = 0 /\
  col (runOps (repeat (OpHandleInput "right") 9) Player_new) = 4.
Proof. repeat split; reflexivity. Qed.

(** ** The per-frame check *)

Lemma enemyLoop_existsb (d : Rect) (l : list Enemy) (w : World) :
  enemyLoop d l w =
  if existsb (fun e => isCollision d (getCollisionDims (e_char e))) l
  then loseBody w else w.
Proof.
  induction l as [| e l IH]; cbn [enemyLoop existsb]; [reflexivity |].
  destruct (isCollision d (getCollisionDims (e_char e))); [reflexivity |].
  exact IH.
Qed.

Lemma bonusLoop_existsb (d : Rect) (l : list BonusItem) (w : World) :
  bonusLoop d l w =
  if existsb (fun b => isCollision d (getCollisionDims (b_char b))) l
  then bonusBody w else w.
Proof.
  induction l as [| b l IH]; cbn [bonusLoop existsb]; [reflexivity |].
  destruct (isCollision d (getCollisionDims (b_char b))); [reflexivity |].
  exact IH.
Qed.

(** The three ways through one running update. *)
Lemma checkWinAndCollision_cases (w : World) :
  running (scoreboard w) = true ->
  checkWinAndCollision w =
  if row (player w) <=? 0 then winBody w
  else
    let w1 := if hazardHit w then loseBody w else w in
    if bonusHit w then bonusBody w1 else w1.
Proof.
  intros Hrun. unfold checkWinAndCollision. rewrite Hrun.
  destruct (row (player w) <=? 0); [reflexivity |].
  cbv zeta. rewrite enemyLoop_existsb, bonusLoop_existsb.
  fold (hazardHit w). unfold bonusHit.
  destruct (hazardHit w); reflexivity.
Qed.

Lemma checkWinAndCollision_idle (w : World) :
  running (scoreboard w) = false -> checkWinAndCollision w = w.
Proof. intros H. unfold checkWinAndCollision. now rewrite H. Qed.

(** C1.  In a running game, an update that finds the player on row 0 (or
    above) adds exactly 1 to the score, raises the won flag, disables the
    moves and puts the player back on row 5 = ROWS - 1, column 2 =
    floor(COLS / 2), all in that one call. *)
Theorem reaching_water_scores (w : World) :
  running (scoreboard w) = true ->
  row (player w) <= 0 ->
  let w' := Scoreboard_update w in
  score (scoreboard w') = score (scoreboard w) + 1 /\
  won (scoreboard w') = true /\
  movingEnabled (player w') = false /\
  row (player w') = MAP_ROWS - 1 /\ row (player w') = 5 /\
  col (player w') = Math_floor (inject_Z MAP_COLS / 2) /\
  col (player w') = 2 /\
  p_char (player w') = {| x := 202; y := 460 |}.
Proof.
  intros Hrun Hrow w'. subst w'. unfold Scoreboard_update.
  rewrite (checkWinAndCollision_cases w Hrun).
  apply Z.leb_le in Hrow. rewrite Hrow.
  repeat split; reflexivity.
Qed.

Lemma reaching_water_scores_witness :
  score (scoreboard (Scoreboard_update (onWater halves))) = 1 /\
  won (scoreboard (Scoreboard_update (onWater halves))) = true /\
  row (player (Scoreboard_update (onWater halves))) = 5 /\
  col (player (Scoreboard_update (onWater halves))) = 2.
Proof.
  destruct (reaching_water_scores (onWater halves))
    as (Hscore & Hwon & _ & _ & Hrow & _ & Hcol & _).
  - reflexivity.
  - vm_compute. discriminate.
  - exact (conj Hscore (conj Hwon (conj Hrow Hcol))).
Defined.

(** C7, as the code has it.  In a running game with the player below row 0,
    an update in which the player's box meets the box of at least one enemy
    takes 1 from the score exactly once, raises the lost flag, puts the
    player back on the start cell and disables the moves.  The score after
    the update is one less than before, unless the player's box also meets a
    bonus item: the same update then adds that item's point back. *)
Theorem hazard_collision_loses (w : World) :
  running (scoreboard w) = true ->
  0 < row (player w) ->
  hazardHit w = true ->
  let w' := Scoreboard_update w in
  lost (scoreboard w') = true /\
  movingEnabled (player w') = false /\
  row (player w') = 5 /\ col (player w') = 2 /\
  p_char (player w') = {| x := 202; y := 460 |} /\
  score (scoreboard w') =
    score (scoreboard w) - 1 + (if bonusHit w then 1 else 0) /\
  (bonusHit w = false -> score (scoreboard w') = score (scoreboard w) - 1).
Proof.
  intros Hrun Hrow Hhit w'. subst w'. unfold Scoreboard_update.
  rewrite (checkWinAndCollision_cases w Hrun).
  apply Z.leb_gt in Hrow. rewrite Hrow, Hhit. cbv zeta.
  destruct (bonusHit w); cbn;
    repeat (split; try reflexivity); try discriminate; intros; lia.
Qed.

Lemma hazard_collision_loses_witness :
  score (scoreboard (Scoreboard_update bugOnly)) = -1 /\
  lost (scoreboard (Scoreboard_update bugOnly)) = true /\
  movingEnabled (player (Scoreboard_update bugOnly)) = false.
Proof.
  destruct (hazard_collision_loses bugOnly)
    as (Hlost & Hmove & _ & _ & _ & _ & Hscore).
  - reflexivity.
  - vm_compute. reflexivity.
  - vm_compute. reflexivity.
  - exact (conj (Hscore eq_refl) (conj Hlost Hmove)).
Defined.

(** C7, as stated, promises a score one lower after every such update; with
    a gem on the same cell the score comes out unchanged. *)
Lemma hazard_collision_score_unchanged :
  running (scoreboard gemAndBug) = true /\
  0 < row (player gemAndBug) /\
  hazardHit gemAndBug = true /\
  score (scoreboard gemAndBug) = 0 /\
  score (scoreboard (Scoreboard_update gemAndBug)) = 0 /\
  score (scoreboard (Scoreboard_update gemAndBug))
  <> score (scoreboard gemAndBug) - 1.
Proof. vm_compute. repeat split; discriminate. Qed.

(** C5, as the code has it.  In a running update the bonus items are tested
    exactly when the player has not reached row 0, whether or not an enemy
    was hit just before.  Reaching row 0 leaves flag and items alone.
    Otherwise a bonus hit adds 1 to the score the enemy test left, raises
    the bonus flag and empties the item list; the bonus branch does not
    touch the movement flag, which is as the enemy test left it: unchanged
    when no enemy was hit, disabled when one was. *)
Theorem bonus_collision_scores (w : World) :
  running (scoreboard w) = true ->
  let w' := Scoreboard_update w in
  (row (player w) <= 0 ->
     bonus (scoreboard w') = bonus (scoreboard w) /\
     bonusItems w' = bonusItems w) /\
  (0 < row (player w) -> bonusHit w = false ->
     bonus (scoreboard w') = bonus (scoreboard w) /\
     bonusItems w' = bonusItems w) /\
  (0 < row (player w) -> bonusHit w = true ->
     bonus (scoreboard w') = true /\
     bonusItems w' = [] /\
     score (scoreboard w') =
       score (scoreboard w) + 1 - (if hazardHit w then 1 else 0) /\
     movingEnabled (player w') =
       (if hazardHit w then false else movingEnabled (player w)) /\
     (hazardHit w = false ->
        score (scoreboard w') = score (scoreboard w) + 1 /\
        player w' = player w)).
Proof.
  intros Hrun w'. subst w'. unfold Scoreboard_update.
  rewrite (checkWinAndCollision_cases w Hrun). split; [| split].
  - intros Hrow. apply Z.leb_le in Hrow. rewrite Hrow. split; reflexivity.
  - intros Hrow Hmiss. apply Z.leb_gt in Hrow. rewrite Hrow, Hmiss. cbv zeta.
    destruct (hazardHit w); split; reflexivity.
  - intros Hrow Hhit. apply Z.leb_gt in Hrow. rewrite Hrow, Hhit. cbv zeta.
    destruct (hazardHit w); cbn;
      repeat (split; try reflexivity); try discriminate; intros; lia.
Qed.

Lemma bonus_collision_scores_witness :
  score (scoreboard (Scoreboard_update gemOnly)) = 1 /\
  bonus (scoreboard (Scoreboard_update gemOnly)) = true /\
  bonusItems (Scoreboard_update gemOnly) = [] /\
  movingEnabled (player (Scoreboard_update gemOnly)) = true.
Proof.
  destruct (bonus_collision_scores gemOnly eq_refl) as (_ & _ & Hhit).
  destruct Hhit as (Hbonus & Hitems & _ & Hmove & Hclean).
  - vm_compute. reflexivity.
  - vm_compute. reflexivity.
  - destruct (Hclean eq_refl) as [Hscore _].
    exact (conj Hscore (conj Hbonus (conj Hitems Hmove))).
Defined.

(** C5, as stated, has the bonus test skipped after a hit by an enemy and
    the moves left enabled on a bonus hit; with a bug and a gem on the
    player's cell the update collects the gem and disables the moves. *)
Lemma bonus_tested_after_hazard_hit :
  running (scoreboard gemAndBug) = true /\
  hazardHit gemAndBug = true /\
  lost (scoreboard (Scoreboard_update gemAndBug)) = true /\
  bonus (scoreboard gemAndBug) = false /\
  bonus (scoreboard (Scoreboard_update gemAndBug)) = true /\
  bonusItems gemAndBug <> [] /\
  bonusItems (Scoreboard_update gemAndBug) = [] /\
  movingEnabled (player gemAndBug) = true /\
  movingEnabled (player (Scoreboard_update gemAndBug)) = false.
Proof. vm_compute. repeat split; discriminate. Qed.

(** ** Starting and ending a game *)

(** [allEnemies.push(new Enemy())] touches the enemy list and the random
    source only. *)
Lemma pushEnemy_frame (w : World) :
  List.length (allEnemies (pushEnemy w)) = S (List.length (allEnemies w)) /\
  player (pushEnemy w) = player w /\
  scoreboard (pushEnemy w) = scoreboard w /\
  bonusItems (pushEnemy w) = bonusItems w /\
  timers (pushEnemy w) = timers w /\
  nextTimer (pushEnemy w) = nextTimer w.
Proof.
  unfold pushEnemy. destruct (Enemy_new (rng w)) as [e g]. cbn.
  rewrite List.length_app, Nat.add_comm. repeat split; reflexivity.
Qed.

Lemma pushEnemy_loop_frame (n : nat) :
  forall w,
    List.length (allEnemies (repeat_times n pushEnemy w))
    = (List.length (allEnemies w) + n)%nat /\
    player (repeat_times n pushEnemy w) = player w /\
    scoreboard (repeat_times n pushEnemy w) = scoreboard w /\
    bonusItems (repeat_times n pushEnemy w) = bonusItems w /\
    timers (repeat_times n pushEnemy w) = timers w /\
    nextTimer (repeat_times n pushEnemy w) = nextTimer w.
Proof.
  induction n as [| n IH]; intros w; cbn [repeat_times].
  - rewrite Nat.add_0_r. repeat split; reflexivity.
  - destruct (IH (pushEnemy w)) as (Hlen & Hp & Hs & Hb & Ht & Hn).
    destruct (pushEnemy_frame w) as (Hlen' & Hp' & Hs' & Hb' & Ht' & Hn').
    rewrite Hlen, Hp, Hs, Hb, Ht, Hn, Hlen', Hp', Hs', Hb', Ht', Hn'.
    repeat split; lia.
Qed.

Lemma startGame_tail_frame (w : World) :
  allEnemies (startGame_tail w) = allEnemies w /\
  scoreboard (startGame_tail w) = scoreboard w /\
  player (startGame_tail w) = enableMoves true (player w) /\
  bonusItems (startGame_tail w) = bonusItems w /\
  timers (startGame_tail w) = timers w ++ startedTimers (nextTimer w).
Proof.
  unfold startGame_tail, countdown, manageBonusItems, setInterval. cbn.
  rewrite <- app_assoc. repeat split; reflexivity.
Qed.

Lemma startGame_frame (w : World) :
  List.length (allEnemies (startGame w))
  = (List.length (allEnemies w) + 7)%nat /\
  scoreboard (startGame w)
  = set_gameOver false
      (set_currentTime GAME_TIME (set_running true (scoreboard w))) /\
  player (startGame w) = enableMoves true (player w) /\
  bonusItems (startGame w) = bonusItems w /\
  timers (startGame w) = timers w ++ startedTimers (nextTimer w).
Proof.
  change (startGame w) with
    (startGame_tail
       (repeat_times 7 pushEnemy
          (with_scoreboard (set_gameOver false)
             (with_scoreboard (set_currentTime GAME_TIME)
                (with_scoreboard (set_running true) w))))).
  match goal with
  | |- context [startGame_tail ?X] =>
      destruct (startGame_tail_frame X) as (He & Hs & Hp & Hb & Ht)
  end.
  rewrite He, Hs, Hp, Hb, Ht.
  match goal with
  | |- context [repeat_times 7 pushEnemy ?X] =>
      destruct (pushEnemy_loop_frame 7 X) as (Hl & Hp' & Hs' & Hb' & Ht' & Hn')
  end.
  rewrite Hl, Hp', Hs', Hb', Ht', Hn'.
  repeat split; reflexivity.
Qed.

(** C6.  [startGame()] on a state without enemies leaves exactly 7 of them,
    sets the clock to the full 60 seconds, clears the game-over flag, sets
    the running flag and enables the moves.  [handleGameOver()] clears the
    running flag, disables the moves, puts the player back on the start
    cell, raises the game-over flag and leaves no enemy and no bonus
    item. *)
Theorem start_and_end_of_game (w v : World) :
  allEnemies w = [] ->
  (List.length (allEnemies (startGame w)) = 7%nat /\
   currentTime (scoreboard (startGame w)) = GAME_TIME /\
   GAME_TIME = 60 /\
   gameOver (scoreboard (startGame w)) = false /\
   running (scoreboard (startGame w)) = true /\
   movingEnabled (player (startGame w)) = true) /\
  (running (scoreboard (handleGameOver v)) = false /\
   movingEnabled (player (handleGameOver v)) = false /\
   row (player (handleGameOver v)) = 5 /\
   col (player (handleGameOver v)) = 2 /\
   p_char (player (handleGameOver v)) = {| x := 202; y := 460 |} /\
   gameOver (scoreboard (handleGameOver v)) = true /\
   allEnemies (handleGameOver v) = [] /\
   bonusItems (handleGameOver v) = []).
Proof.
  intros Hnone. split.
  - destruct (startGame_frame w) as (Hlen & Hs & Hp & _).
    rewrite Hlen, Hs, Hp, Hnone. repeat split; reflexivity.
  - repeat split; reflexivity.
Qed.

Lemma start_and_end_of_game_witness :
  List.length (allEnemies (startGame (initialWorld halves))) = 7%nat /\
  allEnemies (handleGameOver (startGame (initialWorld halves))) = [] /\
  List.length
    (allEnemies
       (startGame (handleGameOver (startGame (initialWorld halves)))))
  = 7%nat.
Proof.
  destruct (start_and_end_of_game (initialWorld halves)
              (startGame (initialWorld halves)) eq_refl)
    as [(Hseven & _) (_ & _ & _ & _ & _ & _ & Hnone & _)].
  destruct (start_and_end_of_game
              (handleGameOver (startGame (initialWorld halves)))
              (initialWorld halves) Hnone)
    as [(Hagain & _) _].
  exact (conj Hseven (conj Hnone Hagain)).
Defined.

(** ** The countdown *)

Lemma findTimer_removeTimer (id : nat) (l : list Timer) :
  findTimer id (removeTimer id l) = None.
Proof.
  unfold findTimer, removeTimer. induction l as [| t l IH]; [reflexivity |].
  cbn [filter]. destruct (Nat.eqb (tid t) id) eqn:E; cbn [negb]; [exact IH |].
  cbn [find]. now rewrite E.
Qed.

Lemma fire_cleared (id : nat) (w : World) :
  fire id (handleGameOver (clearInterval id w)) = None.
Proof.
  unfold fire. cbn [handleGameOver clearInterval timers set_timers
    set_allEnemies set_bonusItems with_player with_scoreboard].
  now rewrite findTimer_removeTimer.
Qed.

Lemma fire_countdown (id : nat) (w : World) :
  countdownActive id w ->
  fire id w =
  Some (if currentTime (scoreboard w) =? 0
        then handleGameOver (clearInterval id w) else tickDown w).
Proof.
  intros (t & Hfind & Hrep & Hact). unfold fire.
  rewrite Hfind, Hrep, Hact. reflexivity.
Qed.

Lemma tickDown_active (id : nat) (w : World) :
  countdownActive id w -> countdownActive id (tickDown w).
Proof. intros H. exact H. Qed.

Lemma set_currentTime_tickDown (n : Z) (w : World) :
  with_scoreboard (set_currentTime n) (tickDown w)
  = with_scoreboard (set_currentTime n) w.
Proof. reflexivity. Qed.

Lemma set_currentTime_same (w : World) :
  with_scoreboard (set_currentTime (currentTime (scoreboard w))) w = w.
Proof. destruct w as [p [] b e t n g]. reflexivity. Qed.

(** While the clock has not run out the interval only ticks it down. *)
Lemma countdown_runs_down (id : nat) (n : nat) :
  forall w,
    countdownActive id w ->
    Z.of_nat n <= currentTime (scoreboard w) ->
    fireN id n w =
    Some (with_scoreboard
            (set_currentTime (currentTime (scoreboard w) - Z.of_nat n)) w).
Proof.
  induction n as [| n IH]; intros w Hact Hle.
  - cbn [fireN Z.of_nat]. rewrite Z.sub_0_r. now rewrite set_currentTime_same.
  - cbn [fireN]. rewrite (fire_countdown id w Hact).
    destruct (Z.eqb_spec (currentTime (scoreboard w)) 0) as [E | E]; [lia |].
    rewrite (IH (tickDown w) (tickDown_active id w Hact)).
    + rewrite set_currentTime_tickDown. do 3 f_equal.
      cbn [tickDown with_scoreboard scoreboard set_currentTime currentTime].
      lia.
    + cbn [tickDown with_scoreboard scoreboard set_currentTime currentTime].
      lia.
Qed.

Lemma startGame_countdownActive (w : World) :
  timers w = [] -> countdownActive (nextTimer w) (startGame w).
Proof.
  intros Hnone. destruct (startGame_frame w) as (_ & _ & _ & _ & Ht).
  unfold countdownActive. rewrite Ht, Hnone.
  unfold startedTimers, findTimer. cbn [app find tid].
  rewrite Nat.eqb_refl. eexists. repeat split; reflexivity.
Qed.

(** One tick of the countdown, on any state: the callback reads the clock
    and nothing else.  With time left it takes one second off; at zero it
    cancels its own interval and calls [handleGameOver()], and the interval
    never fires again.  In a game just started the first 60 ticks count 60
    down to 0 and tick 61 ends the game.  The bonus-spawn tick, for its
    part, cancels itself when the running flag is down. *)
Lemma countdown_tick (id : nat) (w : World) (k : nat) :
  (currentTime (scoreboard w) <> 0 ->
     runCallback id CountdownTick w = tickDown w /\
     running (scoreboard (runCallback id CountdownTick w))
     = running (scoreboard w) /\
     timers (runCallback id CountdownTick w) = timers w) /\
  (currentTime (scoreboard w) = 0 ->
     runCallback id CountdownTick w = handleGameOver (clearInterval id w) /\
     fire id (runCallback id CountdownTick w) = None) /\
  (countdownActive id w -> Z.of_nat k <= currentTime (scoreboard w) ->
     fireN id k w =
     Some (with_scoreboard
             (set_currentTime (currentTime (scoreboard w) - Z.of_nat k)) w) /\
     fireN id (S (Z.to_nat (currentTime (scoreboard w)))) w =
     Some (handleGameOver
             (clearInterval id (with_scoreboard (set_currentTime 0) w))) /\
     fireN id (S (S (Z.to_nat (currentTime (scoreboard w))))) w = None) /\
  (running (scoreboard w) = false ->
     runCallback id BonusSpawnTick w = set_bonusItems [] (clearInterval id w)).
Proof.
  split; [| split; [| split]].
  - intros Hne. apply Z.eqb_neq in Hne. cbn [runCallback]. rewrite Hne.
    repeat split; reflexivity.
  - intros Hz. cbn [runCallback]. rewrite Hz. cbn [Z.eqb].
    split; [reflexivity | apply fire_cleared].
  - intros Hact Hle.
    assert (Hpos : 0 <= currentTime (scoreboard w)) by lia.
    assert (Hall : fireN id (Z.to_nat (currentTime (scoreboard w))) w
                   = Some (with_scoreboard (set_currentTime 0) w)).
    { rewrite (countdown_runs_down id _ w Hact) by lia.
      rewrite Z2Nat.id by exact Hpos. now rewrite Z.sub_diag. }
    assert (Hlast : forall n v, fireN id n w = Some v ->
                      fireN id (S n) w
                      = match fire id v with
                        | Some v' => Some v' | None => None end).
    { clear. intros n. revert w. induction n as [| n IH]; intros w v H.
      - cbn [fireN] in *. injection H as <-. now destruct (fire id w).
      - cbn [fireN] in H. change (fireN id (S (S n)) w) with
          (match fire id w with
           | Some w' => fireN id (S n) w' | None => None end).
        destruct (fire id w) as [w' |]; [now apply IH | discriminate]. }
    assert (Hend : fireN id (S (Z.to_nat (currentTime (scoreboard w)))) w
                   = Some (handleGameOver
                             (clearInterval id
                                (with_scoreboard (set_currentTime 0) w)))).
    { rewrite (Hlast _ _ Hall).
      now rewrite (fire_countdown id (with_scoreboard (set_currentTime 0) w)
                     Hact). }
    split; [now apply countdown_runs_down | split; [exact Hend |]].
    rewrite (Hlast _ _ Hend). now rewrite fire_cleared.
  - intros Hrun. cbn [runCallback]. now rewrite Hrun.
Qed.

Lemma countdown_tick_witness :
  fireN 0 60 freshGame = Some (with_scoreboard (set_currentTime 0) freshGame) /\
  fireN 0 61 freshGame =
  Some (handleGameOver
          (clearInterval 0 (with_scoreboard (set_currentTime 0) freshGame))) /\
  fireN 0 62 freshGame = None.
Proof.
  destruct (countdown_tick 0 freshGame 60) as (_ & _ & Hrun & _).
  apply Hrun.
  - exists {| tid := 0; repeating := true; delay := 1000;
              action := CountdownTick |}.
    repeat split; reflexivity.
  - vm_compute. discriminate.
Defined.

(** ** Doubles *)

(** On doubles the two argument orders can disagree, through rounding:
    [1 + 2^-53] rounds to 1 in one order, while [1 + 2^-52 - 2^-53] rounds
    to 1 in the other.  On the two board boxes below, whose sums are exact,
    the orders agree. *)
Example binary64_rounding :
  Binary64.isCollision Binary64.atOne Binary64.pastOne = true /\
  Binary64.isCollision Binary64.pastOne Binary64.atOne = false /\
  Binary64.isCollision Binary64.playerBox Binary64.enemyBox = false /\
  Binary64.isCollision Binary64.enemyBox Binary64.playerBox = false.
Proof. repeat split; vm_compute; reflexivity. Qed.

(** * Further properties *)

(** ** Collision boxes *)

Lemma inject_Z_window (a b n : Z) :
  (Qabs (inject_Z a - inject_Z b) <= inject_Z n)%Q <-> Z.abs (a - b) <= n.
Proof.
  rewrite Qabs_Qle_condition.
  unfold Qle, Qminus, Qplus, Qopp, inject_Z. cbn. lia.
Qed.

Lemma collisionDims_window (a b : MapCharacter) :
  isCollision (getCollisionDims a) (getCollisionDims b) = true <->
  (Qabs (x a - x b) <= 75 /\ Qabs (y a - y b) <= 57)%Q.
Proof.
  rewrite isCollision_spec, !Qabs_Qle_condition.
  unfold axisOverlap, getCollisionDims. cbn [xPos yPos width height].
  change (inject_Z (CHAR_SIZE_X - collisionBuffer)) with 75%Q.
  change (inject_Z (CHAR_SIZE_Y - collisionBuffer)) with 57%Q.
  change (inject_Z collisionBuffer) with 26%Q.
  split; intros [[? ?] [? ?]]; repeat split; lra.
Qed.

(** X1.  Two characters at integer pixel positions (of magnitude at most
    2^51, so that the sums the script forms are exact) collide exactly when
    their positions differ by at most 75 pixels across and at most 57
    pixels down: the 26-pixel buffer shrinks each 101 x 83 sprite to a
    75 x 57 box and moves both boxes by the same 13 pixels. *)
Theorem collision_window (px py qx qy : Z) :
  small px -> small py -> small qx -> small qy ->
  (isCollision (getCollisionDims (pixelAt px py))
     (getCollisionDims (pixelAt qx qy)) = true
   <-> Z.abs (px - qx) <= 75 /\ Z.abs (py - qy) <= 57).
Proof.
  intros _ _ _ _. rewrite collisionDims_window. unfold pixelAt. cbn [x y].
  change 75%Q with (inject_Z 75). change 57%Q with (inject_Z 57).
  now rewrite !inject_Z_window.
Qed.

Lemma collision_window_witness :
  isCollision (getCollisionDims (pixelAt 101 128))
    (getCollisionDims (pixelAt 26 128)) = true /\
  isCollision (getCollisionDims (pixelAt 101 128))
    (getCollisionDims (pixelAt 25 128)) = false.
Proof.
  assert (Hsmall : forall n, Z.abs n <= 200 -> small n).
  { intros n Hn. unfold small. change (2 ^ 51) with 2251799813685248. lia. }
  split.
  - apply (collision_window 101 128 26 128); try (apply Hsmall; cbn; lia).
    cbn. lia.
  - apply not_true_iff_false. intros Hhit.
    apply (collision_window 101 128 25 128) in Hhit;
      try (apply Hsmall; cbn; lia).
    cbn in Hhit. lia.
Defined.

(** X2.  Characters drawn on grid cells collide exactly when they are on
    the same cell: neighbouring columns are 101 pixels apart and
    neighbouring rows 83, both more than the box allows. *)
Theorem cells_collide_iff_same (r c r' c' : Z) :
  isCollision (getCollisionDims (cellAt r c)) (getCollisionDims (cellAt r' c'))
  = true
  <-> r = r' /\ c = c'.
Proof.
  rewrite collisionDims_window. unfold cellAt. cbn [x y].
  change 75%Q with (inject_Z 75). change 57%Q with (inject_Z 57).
  rewrite !inject_Z_window.
  unfold getXOffsetForCol, getYOffsetForRow, X_START, X_OFFSET, Y_START,
    Y_OFFSET.
  lia.
Qed.

(** ** Bonus items *)

(** X3.  A new bonus item sits exactly on a cell of row 1 or 2, in any of
    the five columns, and its construction takes two values from the random
    source. *)
Theorem BonusItem_new_on_cell (g : Rng) :
  unit_interval g ->
  (exists r c : Z,
      1 <= r <= 2 /\ 0 <= c <= 4 /\
      b_char (fst (BonusItem_new g)) = cellAt r c) /\
  snd (BonusItem_new g) = (fun n => g (S (S n))).
Proof.
  intros Hg. destruct (Hg O) as [H0 H1]. destruct (Hg 1%nat) as [H2 H3].
  split; [| reflexivity].
  exists (Math_floor (g 1%nat * inject_Z (3 - 1)) + 1).
  exists (Math_floor (g O * inject_Z MAP_COLS)).
  assert (0 <= Math_floor (g 1%nat * inject_Z (3 - 1)) < 2).
  { apply Math_floor_range; change (inject_Z (3 - 1)) with 2%Q;
      [| change (inject_Z 2) with 2%Q]; lra. }
  assert (0 <= Math_floor (g O * inject_Z MAP_COLS) < 5).
  { apply Math_floor_range; change (inject_Z MAP_COLS) with 5%Q;
      [| change (inject_Z 5) with 5%Q]; lra. }
  repeat split; lia.
Qed.

Lemma BonusItem_new_on_cell_witness :
  unit_interval halves /\
  exists r c : Z,
    1 <= r <= 2 /\ 0 <= c <= 4 /\
    b_char (fst (BonusItem_new halves)) = cellAt r c.
Proof.
  assert (Hg : unit_interval halves).
  { intros n. split; vm_compute; [discriminate | reflexivity]. }
  split; [exact Hg | apply (BonusItem_new_on_cell halves Hg)].
Defined.

(** ** Enemies *)

Lemma freshEnemy_inLane (e : Enemy) : freshEnemy e -> inLane e.
Proof. intros (_ & Hlane & Hspeed). now split. Qed.

(** What [update] preserves of an enemy. *)
Lemma Enemy_update_keeps (dt : Q) (e : Enemy) (g : Rng) :
  unit_interval g ->
  inLane e ->
  inLane (fst (Enemy_update dt e g)) /\
  (x (e_char (fst (Enemy_update dt e g))) <= 606)%Q /\
  ((0 <= dt)%Q -> (-101 <= x (e_char e))%Q ->
   (-101 <= x (e_char (fst (Enemy_update dt e g))))%Q) /\
  unit_interval (snd (Enemy_update dt e g)).
Proof.
  intros Hg Hlane. unfold Enemy_update.
  fold (advance dt e). cbn [advance e_char x].
  destruct (Qgtb (x (e_char e) + dt * speed e) (inject_Z rightBoundary))
    eqn:Hcmp.
  - destruct (Enemy_reset_fresh (advance dt e) g Hg) as (Hx & Hl & Hs).
    split; [now split |]. rewrite Hx.
    split; [vm_compute; discriminate |].
    split; [intros _ _; vm_compute; discriminate |].
    now apply Enemy_reset_rng.
  - apply Qgtb_false in Hcmp. change (inject_Z rightBoundary) with 606%Q in Hcmp.
    cbn [fst snd advance e_char x y speed].
    split; [exact Hlane |]. split; [exact Hcmp |]. split; [| exact Hg].
    intros Hdt Hx. destruct Hlane as [_ [Hlo _]].
    assert (0 <= dt * speed e)%Q by (apply Qmult_le_0_compat; lra).
    lra.
Qed.

(** X4.  [update] keeps an enemy in its lane with a speed from 75 to 320,
    never leaves it beyond the right boundary 606, and, when time does not
    run backwards, never moves it left of the start abscissa -101. *)
Theorem Enemy_update_invariant (dt : Q) (e : Enemy) (g : Rng) :
  unit_interval g ->
  inLane e ->
  inLane (fst (Enemy_update dt e g)) /\
  (x (e_char (fst (Enemy_update dt e g))) <= 606)%Q /\
  ((0 <= dt)%Q -> (-101 <= x (e_char e))%Q ->
   (-101 <= x (e_char (fst (Enemy_update dt e g))))%Q) /\
  unit_interval (snd (Enemy_update dt e g)).
Proof. intros. now apply Enemy_update_keeps. Qed.

Lemma Enemy_update_invariant_witness :
  (x (e_char (fst (Enemy_update (1 # 60) cruisingEnemy halves))) <= 606)%Q /\
  (-101 <= x (e_char (fst (Enemy_update (1 # 60) cruisingEnemy halves))))%Q.
Proof.
  assert (Hg : unit_interval halves).
  { intros n. split; vm_compute; [discriminate | reflexivity]. }
  assert (Hlane : inLane cruisingEnemy).
  { split; [exists 2; split; [lia | reflexivity] |].
    split; vm_compute; discriminate. }
  destruct (Enemy_update_invariant (1 # 60) cruisingEnemy halves Hg Hlane)
    as (_ & Hright & Hleft & _).
  split; [exact Hright | apply Hleft; vm_compute; discriminate].
Defined.

(** ** Player moves *)

(** What one call of [handleInput] can change. *)
Lemma handleInput_step (k : string) (p : Player) :
  Z.abs (row (handleInput k p) - row p)
  + Z.abs (col (handleInput k p) - col p) <= 1 /\
  p_char (handleInput k p) = p_char p /\
  movingEnabled (handleInput k p) = movingEnabled p.
Proof.
  unfold handleInput. destruct (movingEnabled p) eqn:Hm.
  - repeat match goal with
           | |- context [if (?a =? ?b)%string then _ else _] =>
               destruct (a =? b)%string
           | |- context [if ?a <? ?b then _ else _] =>
               destruct (Z.ltb_spec a b)
           end;
      cbn [set_row set_col row col p_char movingEnabled];
      repeat split; try lia; try reflexivity; now rewrite Hm.
  - repeat split; try lia; try reflexivity; now rewrite Hm.
Qed.

(** X6.  One call of [handleInput] moves the player by at most one cell,
    along one axis, and touches neither the pixel position (that waits
    for [update]) nor the moves flag. *)
Theorem handleInput_one_step (k : string) (p : Player) :
  Z.abs (row (handleInput k p) - row p)
  + Z.abs (col (handleInput k p) - col p) <= 1 /\
  p_char (handleInput k p) = p_char p /\
  movingEnabled (handleInput k p) = movingEnabled p.
Proof. intros. now apply handleInput_step. Qed.

Lemma Player_eta (p : Player) :
  {| p_char := p_char p; row := row p; col := col p;
     movingEnabled := movingEnabled p |} = p.
Proof. now destruct p. Qed.

(** X7.  With moves enabled, a step and the opposite step bring the player
    back to where it was, provided the first step was not blocked by the
    edge of the grid. *)
Theorem handleInput_there_and_back (p : Player) :
  movingEnabled p = true ->
  (0 < col p <= MAP_COLS - 1 ->
   handleInput "right" (handleInput "left" p) = p) /\
  (0 <= col p < MAP_COLS - 1 ->
   handleInput "left" (handleInput "right" p) = p) /\
  (0 < row p <= MAP_ROWS - 1 ->
   handleInput "down" (handleInput "up" p) = p) /\
  (0 <= row p < MAP_ROWS - 1 ->
   handleInput "up" (handleInput "down" p) = p).
Proof.
  destruct p as [pc r c m]. cbn [movingEnabled row col]. intros ->.
  unfold handleInput, MAP_COLS, MAP_ROWS.
  repeat split; intros H;
    cbn -[Z.ltb Z.add Z.sub];
    repeat match goal with
      | |- context [if ?a <? ?b then _ else _] =>
          destruct (Z.ltb_spec a b); try lia;
          cbn -[Z.ltb Z.add Z.sub]
      end;
    unfold set_row, set_col; cbn -[Z.add Z.sub]; f_equal; lia.
Qed.

Lemma handleInput_there_and_back_witness :
  handleInput "right" (handleInput "left" Player_new) = Player_new /\
  handleInput "down" (handleInput "up" Player_new) = Player_new.
Proof.
  destruct (handleInput_there_and_back Player_new eq_refl)
    as (Hleft & _ & Hup & _).
  split; [apply Hleft | apply Hup]; vm_compute; split; congruence.
Defined.

Lemma runOp_drawnOnCell (op : PlayerOp) (p : Player) :
  onGrid p -> drawnOnCell p -> drawnOnCell (runOp p op).
Proof.
  intros Hgrid Hdrawn. destruct op; cbn [runOp].
  - destruct (handleInput_step inputKey p) as (_ & Hpix & _).
    unfold drawnOnCell. now rewrite Hpix.
  - exact Hdrawn.
  - exists (row p), (col p). unfold onGrid, MAP_ROWS, MAP_COLS in Hgrid.
    repeat split; try lia.
  - exists 5, 2. repeat split; lia.
Qed.

(** X8.  Whatever calls are made on the player, its pixel position is
    always exactly that of a cell of the 6 x 5 grid, never in between; right
    after [update] it is the cell the player's row and column name. *)
Theorem player_drawn_on_cell (ops : list PlayerOp) :
  drawnOnCell (runOps ops Player_new) /\
  p_char (runOps (ops ++ [OpUpdate]) Player_new)
  = cellAt (row (runOps ops Player_new)) (col (runOps ops Player_new)).
Proof.
  split.
  - assert (H : forall p, onGrid p -> drawnOnCell p ->
                  onGrid (runOps ops p) /\ drawnOnCell (runOps ops p)).
    { unfold runOps. induction ops as [| op ops IH]; intros p Hg Hd;
        cbn [fold_left]; [now split |].
      apply IH; [now apply runOp_onGrid | now apply runOp_drawnOnCell]. }
    apply H.
    + apply (Player_reset_onGrid Player_new).
    + exists 5, 2. repeat split; lia.
  - unfold runOps. rewrite fold_left_app. reflexivity.
Qed.

(** ** The keyup listener *)

Lemma with_player_id (w : World) : with_player (fun p => p) w = w.
Proof. now destruct w. Qed.

(** X9.  A key whose code is not 37, 38, 39 or 40 changes nothing at all,
    and neither does any key while moves are disabled.  A key never
    changes anything but the player, whom it moves by at most one cell. *)
Theorem onKeyup_effect (keyCode : Z) (w : World) :
  (keyCode < 37 \/ 40 < keyCode -> onKeyup keyCode w = w) /\
  (movingEnabled (player w) = false -> onKeyup keyCode w = w) /\
  scoreboard (onKeyup keyCode w) = scoreboard w /\
  allEnemies (onKeyup keyCode w) = allEnemies w /\
  bonusItems (onKeyup keyCode w) = bonusItems w /\
  timers (onKeyup keyCode w) = timers w /\
  Z.abs (row (player (onKeyup keyCode w)) - row (player w))
  + Z.abs (col (player (onKeyup keyCode w)) - col (player w)) <= 1.
Proof.
  unfold onKeyup. split; [| split].
  - intros Hout. unfold allowedKeys.
    repeat match goal with
           | |- context [if ?a =? ?b then _ else _] =>
               destruct (Z.eqb_spec a b); [lia |]
           end.
    apply with_player_id.
  - intros Hoff. destruct w as [p s b e t n g]. cbn in Hoff. unfold with_player.
    cbn [player scoreboard bonusItems allEnemies timers nextTimer rng].
    f_equal. destruct (allowedKeys keyCode); cbn [handleInputArg];
      [now apply handleInput_disabled | reflexivity].
  - repeat split. cbn [with_player player].
    destruct (allowedKeys keyCode) as [k |]; cbn [handleInputArg].
    + apply handleInput_step.
    + lia.
Qed.

Lemma onKeyup_effect_witness :
  onKeyup 32 freshGame = freshGame /\
  onKeyup 38 (initialWorld halves) = initialWorld halves.
Proof.
  destruct (onKeyup_effect 32 freshGame) as (Hcode & _).
  destruct (onKeyup_effect 38 (initialWorld halves)) as (_ & Hoff & _).
  split; [apply Hcode; left; lia | apply Hoff; reflexivity].
Defined.

(** ** One Scoreboard update *)

Lemma Scoreboard_update_shape (w : World) :
  Scoreboard_update w = w \/
  running (scoreboard w) = true /\
  (Scoreboard_update w = winBody w \/
   Scoreboard_update w = loseBody w \/
   Scoreboard_update w = bonusBody w \/
   Scoreboard_update w = bonusBody (loseBody w)).
Proof.
  unfold Scoreboard_update. destruct (running (scoreboard w)) eqn:Hrun.
  - rewrite (checkWinAndCollision_cases w Hrun).
    destruct (row (player w) <=? 0); [now right; split; [| left] |].
    cbv zeta. destruct (hazardHit w), (bonusHit w); auto 6.
  - left. now apply checkWinAndCollision_idle.
Qed.

(** X10.  A Scoreboard update never touches the clock, the running and
    game-over flags, the enemies or the random source; it changes the score
    by at most one; it only ever adds one-shot timers, at most two of them;
    and on a game that is not running it does nothing at all. *)
Theorem Scoreboard_update_frame (w : World) :
  currentTime (scoreboard (Scoreboard_update w)) = currentTime (scoreboard w) /\
  running (scoreboard (Scoreboard_update w)) = running (scoreboard w) /\
  gameOver (scoreboard (Scoreboard_update w)) = gameOver (scoreboard w) /\
  allEnemies (Scoreboard_update w) = allEnemies w /\
  rng (Scoreboard_update w) = rng w /\
  Z.abs (score (scoreboard (Scoreboard_update w)) - score (scoreboard w)) <= 1 /\
  (exists added,
      timers (Scoreboard_update w) = timers w ++ added /\
      (List.length added <= 2)%nat /\
      Forall (fun t => repeating t = false) added) /\
  (running (scoreboard w) = false -> Scoreboard_update w = w).
Proof.
  destruct (Scoreboard_update_shape w) as [-> | [Hrun [-> | [-> | [-> | ->]]]]].
  - repeat split; try lia.
    + exists []. rewrite app_nil_r. repeat split; [cbn; lia | constructor].
  - repeat split; cbn; try lia.
    + eexists. repeat split; [cbn; lia |]. repeat constructor.
    + congruence.
  - repeat split; cbn; try lia.
    + eexists. repeat split; [cbn; lia |]. repeat constructor.
    + congruence.
  - repeat split; cbn; try lia.
    + eexists. repeat split; [cbn; lia |]. repeat constructor.
    + congruence.
  - repeat split; cbn; try lia.
    + rewrite <- app_assoc. eexists. repeat split; [cbn; lia |].
      repeat constructor.
    + congruence.
Qed.

Lemma Scoreboard_update_frame_witness :
  Scoreboard_update (initialWorld halves) = initialWorld halves.
Proof.
  apply (Scoreboard_update_frame (initialWorld halves)). reflexivity.
Defined.

(** ** Flashes *)

Lemma findTimer_fresh (l : list Timer) (t : Timer) :
  Forall (fun u => tid u <> tid t) l -> findTimer (tid t) (l ++ [t]) = Some t.
Proof.
  unfold findTimer. induction 1 as [| u l Hu _ IH]; cbn [app find].
  - now rewrite Nat.eqb_refl.
  - apply Nat.eqb_neq in Hu. now rewrite Hu.
Qed.

Lemma removeTimer_fresh (l : list Timer) (t : Timer) :
  Forall (fun u => tid u <> tid t) l -> removeTimer (tid t) (l ++ [t]) = l.
Proof.
  unfold removeTimer. induction 1 as [| u l Hu _ IH]; cbn [app filter].
  - now rewrite Nat.eqb_refl.
  - apply Nat.eqb_neq in Hu. rewrite Hu. cbn [negb]. now rewrite IH.
Qed.

Lemma timersBelow_fresh (w : World) :
  timersBelow w -> Forall (fun u => tid u <> nextTimer w) (timers w).
Proof.
  unfold timersBelow. apply Forall_impl. intros u Hu. lia.
Qed.

(** A timeout that has just been scheduled, when it fires, runs its
    callback on the state in which the table is as before the scheduling. *)
Lemma fire_scheduled (cb : Callback) (ms : Z) (w : World) :
  timersBelow w ->
  fire (nextTimer w) (setTimeout cb ms w) =
  Some (runCallback (nextTimer w) cb
          (set_timers (timers w) (S (nextTimer w)) w)).
Proof.
  intros Hbelow. apply timersBelow_fresh in Hbelow.
  set (t := {| tid := nextTimer w; repeating := false; delay := ms;
               action := cb |}).
  assert (Hfind : findTimer (nextTimer w) (timers (setTimeout cb ms w))
                  = Some t)
    by apply (findTimer_fresh (timers w) t Hbelow).
  assert (Hrem : removeTimer (nextTimer w) (timers (setTimeout cb ms w))
                 = timers w)
    by apply (removeTimer_fresh (timers w) t Hbelow).
  unfold fire. rewrite Hfind. cbn [repeating action t].
  unfold clearInterval. rewrite Hrem. reflexivity.
Qed.

(** X11.  The timeout that a win or a hit by an enemy schedules, when it
    fires while the game is still running, lowers the flag again,
    re-enables the moves and leaves the timer table exactly as it was before
    the update; the one a collected bonus schedules lowers the bonus flag
    and touches nothing else.  The score keeps the point won or lost. *)
Theorem flash_clears (w : World) :
  timersBelow w ->
  running (scoreboard w) = true ->
  (row (player w) <= 0 ->
   exists w2,
     fire (nextTimer w) (Scoreboard_update w) = Some w2 /\
     won (scoreboard w2) = false /\
     movingEnabled (player w2) = true /\
     timers w2 = timers w /\
     score (scoreboard w2) = score (scoreboard w) + 1) /\
  (0 < row (player w) -> hazardHit w = true -> bonusHit w = false ->
   exists w2,
     fire (nextTimer w) (Scoreboard_update w) = Some w2 /\
     lost (scoreboard w2) = false /\
     movingEnabled (player w2) = true /\
     timers w2 = timers w /\
     score (scoreboard w2) = score (scoreboard w) - 1) /\
  (0 < row (player w) -> hazardHit w = false -> bonusHit w = true ->
   exists w2,
     fire (nextTimer w) (Scoreboard_update w) = Some w2 /\
     bonus (scoreboard w2) = false /\
     player w2 = player w /\
     bonusItems w2 = [] /\
     timers w2 = timers w /\
     score (scoreboard w2) = score (scoreboard w) + 1).
Proof.
  intros Hbelow Hrun. unfold Scoreboard_update.
  rewrite (checkWinAndCollision_cases w Hrun). split; [| split].
  - intros Hrow. apply Z.leb_le in Hrow. rewrite Hrow.
    unfold winBody, endWinState. eexists. split.
    + match goal with
      | |- fire _ (setTimeout ?cb ?ms ?v) = _ =>
          apply (fire_scheduled cb ms v Hbelow)
      end.
    + cbn. rewrite Hrun. cbn. repeat split; reflexivity.
  - intros Hrow Hhit Hmiss. apply Z.leb_gt in Hrow.
    rewrite Hrow, Hhit, Hmiss. cbv zeta.
    unfold loseBody, endLoseState. eexists. split.
    + match goal with
      | |- fire _ (setTimeout ?cb ?ms ?v) = _ =>
          apply (fire_scheduled cb ms v Hbelow)
      end.
    + cbn. rewrite Hrun. cbn. repeat split; reflexivity.
  - intros Hrow Hmiss Hhit. apply Z.leb_gt in Hrow.
    rewrite Hrow, Hhit, Hmiss. cbv zeta.
    unfold bonusBody, endBonusState. eexists. split.
    + match goal with
      | |- fire _ (setTimeout ?cb ?ms ?v) = _ =>
          apply (fire_scheduled cb ms v Hbelow)
      end.
    + cbn. repeat split; reflexivity.
Qed.

Lemma flash_clears_witness :
  exists w2,
    fire 3 (Scoreboard_update bugOnly) = Some w2 /\
    lost (scoreboard w2) = false /\
    movingEnabled (player w2) = true /\
    timers w2 = timers bugOnly /\
    score (scoreboard w2) = score (scoreboard bugOnly) - 1.
Proof.
  assert (Hbelow : timersBelow bugOnly).
  { unfold timersBelow. cbn. repeat constructor. }
  destruct (flash_clears bugOnly Hbelow eq_refl) as (_ & Hlose & _).
  apply Hlose; vm_compute; reflexivity.
Defined.

(** ** Rendering the scoreboard *)

(** X12.  [render] appends its texts to the canvas and puts the fill style
    back as it found it.  It always draws the score line first (white, or
    red for a negative score) and the time line second; it draws
    "Success!", "Bonus!" and "Ouch!" exactly when the won, bonus and lost
    flags are up, each on its own, so that several can be drawn in one
    frame; and it draws "GAME OVER" exactly when the game-over flag is up
    and neither won nor lost is. *)
Theorem Scoreboard_render_draws (s : Scoreboard) (c : Ctx) :
  exists calls,
    canvas (Scoreboard_render s c) = canvas c ++ calls /\
    fillStyle (Scoreboard_render s c) = fillStyle c /\
    nth_error calls 0 =
      Some {| text := ("Score: " ++ toString (score s))%string;
              style := if 0 <=? score s then "white"%string
                       else "red"%string;
              face := "20px serif"; atX := 10; atY := 75 |} /\
    nth_error calls 1 =
      Some {| text := ("Time: " ++ toString (currentTime s))%string;
              style := "white"; face := "20px serif";
              atX := 420; atY := 75 |} /\
    shown "Success!" calls = won s /\
    shown "Bonus!" calls = bonus s /\
    shown "Ouch!" calls = lost s /\
    shown "GAME OVER" calls = gameOver s && negb (won s) && negb (lost s) /\
    List.length calls =
      (2 + (if won s then 1 else 0) + (if bonus s then 1 else 0)
       + (if lost s then 1 else 0)
       + (if gameOver s && negb (won s) && negb (lost s) then 1 else 0))%nat.
Proof.
  destruct s as [sc w l b ct r go]. unfold Scoreboard_render, shown.
  cbn [score won lost bonus currentTime running gameOver].
  destruct (0 <=? sc), w, l, b, go;
    cbn [andb negb set_fillStyle set_font fillText fillStyle font canvas];
    rewrite <- ?app_assoc; cbn [app];
    (eexists; split; [reflexivity |]);
    repeat split; reflexivity.
Qed.

(** ** Invariants of the running page *)

Lemma updateEnemies_length (dt : Q) (l : list Enemy) :
  forall g, List.length (fst (updateEnemies dt l g)) = List.length l.
Proof.
  induction l as [| e l IH]; intros g; cbn [updateEnemies]; [reflexivity |].
  destruct (Enemy_update dt e g) as [e' g1].
  specialize (IH g1). destruct (updateEnemies dt l g1) as [l' g2].
  cbn [fst List.length] in *. now rewrite IH.
Qed.

Lemma updateAllEnemies_frame (dt : Q) (w : World) :
  player (updateAllEnemies dt w) = player w /\
  scoreboard (updateAllEnemies dt w) = scoreboard w /\
  bonusItems (updateAllEnemies dt w) = bonusItems w /\
  timers (updateAllEnemies dt w) = timers w /\
  nextTimer (updateAllEnemies dt w) = nextTimer w /\
  List.length (allEnemies (updateAllEnemies dt w))
  = List.length (allEnemies w).
Proof.
  unfold updateAllEnemies.
  pose proof (updateEnemies_length dt (allEnemies w) (rng w)) as Hlen.
  destruct (updateEnemies dt (allEnemies w) (rng w)) as [l g].
  repeat split; try reflexivity. exact Hlen.
Qed.

Lemma handleInputArg_onGrid (k : option string) (p : Player) :
  onGrid p -> onGrid (handleInputArg k p).
Proof.
  destruct k; cbn [handleInputArg]; [apply handleInput_onGrid | trivial].
Qed.

Lemma handleInputArg_disabled (k : option string) (p : Player) :
  movingEnabled p = false -> handleInputArg k p = p.
Proof.
  destruct k; cbn [handleInputArg]; [apply handleInput_disabled | trivial].
Qed.

Lemma handleInputArg_flag (k : option string) (p : Player) :
  movingEnabled (handleInputArg k p) = movingEnabled p.
Proof.
  destruct k; cbn [handleInputArg]; [apply handleInput_step | trivial].
Qed.

(** The state a callback runs in has the fields of the state the timer
    fired in, the timer table apart. *)
Lemma fire_inversion (id : nat) (w w' : World) :
  fire id w = Some w' ->
  exists cb v,
    w' = runCallback id cb v /\
    player v = player w /\ scoreboard v = scoreboard w /\
    bonusItems v = bonusItems w /\ allEnemies v = allEnemies w /\
    rng v = rng w.
Proof.
  unfold fire. destruct (findTimer id (timers w)) as [t |]; [| discriminate].
  intros [= <-]. exists (action t).
  destruct (repeating t); eexists; (split; [reflexivity |]);
    repeat split; reflexivity.
Qed.

Lemma runCallback_worldInv (id : nat) (cb : Callback) (v : World) :
  worldInv v -> worldInv (runCallback id cb v).
Proof.
  unfold worldInv, onGrid, GAME_TIME, MAP_ROWS, MAP_COLS.
  intros (Hgrid & Hclock & Hbonus & Hover & Hidle).
  destruct cb; cbn [runCallback].
  - destruct (Z.eqb_spec (currentTime (scoreboard v)) 0) as [E | E]; cbn.
    + repeat split; try lia; try reflexivity; congruence.
    + repeat split; try lia; try tauto; apply Hidle; assumption.
  - destruct (running (scoreboard v)) eqn:Hrun.
    + destruct (BonusItem_new (rng (set_bonusItems [] v))) as [b g]. cbn.
      rewrite Hrun. repeat split; try lia; try tauto; discriminate.
    + cbn. rewrite Hrun. destruct (Hidle eq_refl) as (? & ? & ? & ? & ?).
      repeat split; try lia; try tauto.
  - cbn. repeat split; try lia; try tauto; apply Hidle; assumption.
  - cbn. destruct (running (scoreboard v)) eqn:Hrun; cbn; rewrite ?Hrun;
      repeat split; try lia; try tauto; try discriminate;
      apply Hidle; reflexivity.
  - cbn. destruct (running (scoreboard v)) eqn:Hrun; cbn; rewrite ?Hrun;
      repeat split; try lia; try tauto; try discriminate;
      apply Hidle; reflexivity.
  - cbn. repeat split; try lia; try tauto; apply Hidle; assumption.
Qed.

Lemma worldInv_fields (v w : World) :
  player v = player w -> scoreboard v = scoreboard w ->
  bonusItems v = bonusItems w -> allEnemies v = allEnemies w ->
  worldInv w -> worldInv v.
Proof. unfold worldInv. now intros -> -> -> ->. Qed.

Lemma initialWorld_worldInv (g : Rng) : worldInv (initialWorld g).
Proof.
  unfold worldInv, onGrid, GAME_TIME, MAP_ROWS, MAP_COLS. cbn.
  repeat split; try lia; discriminate.
Qed.

Lemma handleGameOver_worldInv (v : World) :
  0 <= currentTime (scoreboard v) <= GAME_TIME -> worldInv (handleGameOver v).
Proof.
  unfold worldInv, onGrid, GAME_TIME, MAP_ROWS, MAP_COLS. cbn.
  repeat split; lia.
Qed.

Lemma step_worldInv (ev : Event) (w : World) :
  worldInv w -> worldInv (step w ev).
Proof.
  intros Hinv. destruct ev; cbn [step].
  - destruct (startGame_frame w) as (_ & Hs & Hp & Hb & _).
    destruct Hinv as (Hgrid & Hclock & Hbonus & Hover & Hidle).
    unfold worldInv. rewrite Hs, Hp, Hb. cbn. unfold GAME_TIME.
    repeat split; try apply Hgrid; try lia; discriminate.
  - destruct (Scoreboard_update_shape w)
      as [-> | [Hrun [-> | [-> | [-> | ->]]]]]; [exact Hinv | | | |];
      destruct Hinv as (Hgrid & Hclock & Hbonus & Hover & Hidle);
      unfold worldInv, onGrid, MAP_ROWS, MAP_COLS in *; cbn;
      rewrite ?Hrun; repeat split; try lia; try tauto; try discriminate;
      intros Hgo; rewrite <- Hrun; now apply Hover.
  - destruct Hinv as (Hgrid & Hclock & Hbonus & Hover & Hidle).
    unfold worldInv, onGrid in *. cbn. repeat split; try lia; try tauto;
      apply Hidle; assumption.
  - destruct (updateAllEnemies_frame dt w) as (Hp & Hs & Hb & _ & _ & Hlen).
    destruct Hinv as (Hgrid & Hclock & Hbonus & Hover & Hidle).
    unfold worldInv. rewrite Hp, Hs, Hb.
    repeat split; try apply Hgrid; try lia; try tauto;
      try (apply Hidle; assumption).
    apply length_zero_iff_nil. rewrite Hlen.
    now destruct (Hidle H) as (_ & _ & _ & -> & _).
  - destruct Hinv as (Hgrid & Hclock & Hbonus & Hover & Hidle).
    unfold worldInv, onKeyup. cbn [with_player player scoreboard bonusItems
      allEnemies]. rewrite handleInputArg_flag.
    split; [now apply handleInputArg_onGrid |].
    repeat split; try lia; try tauto; try (apply Hidle; assumption).
    + rewrite handleInputArg_disabled; apply Hidle; assumption.
    + rewrite handleInputArg_disabled; apply Hidle; assumption.
  - destruct (fire id w) as [w' |] eqn:Hfire; [| exact Hinv].
    destruct (fire_inversion id w w' Hfire)
      as (cb & v & -> & Hp & Hs & Hb & He & _).
    apply runCallback_worldInv.
    now apply (worldInv_fields v w).
Qed.

Lemma run_worldInv (evs : list Event) :
  forall w, worldInv w -> worldInv (run evs w).
Proof.
  unfold run. induction evs as [| ev evs IH]; intros w Hinv; cbn [fold_left];
    [exact Hinv | apply IH, step_worldInv, Hinv].
Qed.

(** X13.  However the page drives the script from its initial state
    (starting games, frames, keys, timers firing, in any order), the player
    is always on the 6 x 5 grid and the clock always between 0 and 60. *)
Theorem reachable_on_grid_in_time (g : Rng) (evs : list Event) :
  let w := run evs (initialWorld g) in
  (0 <= row (player w) <= 5 /\ 0 <= col (player w) <= 4) /\
  0 <= currentTime (scoreboard w) <= 60.
Proof.
  intros w. destruct (run_worldInv evs (initialWorld g)
                        (initialWorld_worldInv g)) as (Hgrid & Hclock & _).
  split; [exact Hgrid | exact Hclock].
Qed.

(** X14.  In every state the page can reach there is at most one bonus
    item. *)
Theorem reachable_one_bonus_item (g : Rng) (evs : list Event) :
  (List.length (bonusItems (run evs (initialWorld g))) <= 1)%nat.
Proof.
  apply (run_worldInv evs (initialWorld g) (initialWorld_worldInv g)).
Qed.

(** X15.  In every state the page can reach in which the game is not
    running, the moves are disabled, the player is on the start cell and
    there are neither enemies nor bonus items; and the game-over flag is
    only ever up while the game is not running. *)
Theorem reachable_idle_is_inert (g : Rng) (evs : list Event) :
  let w := run evs (initialWorld g) in
  (running (scoreboard w) = false ->
   movingEnabled (player w) = false /\
   row (player w) = 5 /\ col (player w) = 2 /\
   allEnemies w = [] /\ bonusItems w = []) /\
  (gameOver (scoreboard w) = true -> running (scoreboard w) = false).
Proof.
  intros w. destruct (run_worldInv evs (initialWorld g)
                        (initialWorld_worldInv g))
    as (_ & _ & _ & Hover & Hidle).
  split; [exact Hidle | exact Hover].
Qed.

(** ** Enemies on the page *)

Lemma pushEnemy_laneInv (w : World) : laneInv w -> laneInv (pushEnemy w).
Proof.
  intros [Hg Hall]. unfold pushEnemy, Enemy_new.
  pose proof (Enemy_reset_fresh
                {| e_char := {| x := 0; y := 0 |}; speed := 0 |} (rng w) Hg)
    as Hfresh.
  pose proof (Enemy_reset_rng
                {| e_char := {| x := 0; y := 0 |}; speed := 0 |} (rng w) Hg)
    as Hrng.
  destruct (Enemy_reset _ (rng w)) as [e g]. cbn [fst snd] in *.
  split; [exact Hrng |]. cbn [allEnemies set_allEnemies set_rng].
  apply Forall_app. split; [exact Hall |]. constructor; [| constructor].
  split; [now apply freshEnemy_inLane |].
  destruct Hfresh as (-> & _). vm_compute. discriminate.
Qed.

Lemma pushEnemy_loop_laneInv (n : nat) :
  forall w, laneInv w -> laneInv (repeat_times n pushEnemy w).
Proof.
  induction n as [| n IH]; intros w H; cbn [repeat_times];
    [exact H | apply IH, pushEnemy_laneInv, H].
Qed.

Lemma startGame_tail_rng (w : World) : rng (startGame_tail w) = rng w.
Proof. reflexivity. Qed.

Lemma startGame_laneInv (w : World) : laneInv w -> laneInv (startGame w).
Proof.
  intros H.
  change (startGame w) with
    (startGame_tail
       (repeat_times 7 pushEnemy
          (with_scoreboard (set_gameOver false)
             (with_scoreboard (set_currentTime GAME_TIME)
                (with_scoreboard (set_running true) w))))).
  match goal with
  | |- laneInv (startGame_tail ?X) =>
      assert (HX : laneInv X) by (apply pushEnemy_loop_laneInv; exact H);
      destruct (startGame_tail_frame X) as (He & _);
      unfold laneInv; rewrite He, startGame_tail_rng; exact HX
  end.
Qed.

Lemma updateEnemies_laneInv (dt : Q) (l : list Enemy) :
  forall g,
    unit_interval g ->
    Forall (fun e => inLane e /\ (x (e_char e) <= 606)%Q) l ->
    unit_interval (snd (updateEnemies dt l g)) /\
    Forall (fun e => inLane e /\ (x (e_char e) <= 606)%Q)
      (fst (updateEnemies dt l g)).
Proof.
  induction l as [| e l IH]; intros g Hg Hall; cbn [updateEnemies].
  - split; [exact Hg | constructor].
  - inversion Hall as [| ? ? [Hlane _] Hrest]; subst.
    destruct (Enemy_update_keeps dt e g Hg Hlane) as (Hl & Hx & _ & Hg1).
    destruct (Enemy_update dt e g) as [e' g1]. cbn [fst snd] in *.
    destruct (IH g1 Hg1 Hrest) as [Hg2 Hall'].
    destruct (updateEnemies dt l g1) as [l' g2]. cbn [fst snd] in *.
    split; [exact Hg2 | constructor; [now split | exact Hall']].
Qed.

Lemma Scoreboard_update_enemies (w : World) :
  allEnemies (Scoreboard_update w) = allEnemies w /\
  rng (Scoreboard_update w) = rng w /\
  running (scoreboard (Scoreboard_update w)) = running (scoreboard w).
Proof.
  destruct (Scoreboard_update_shape w)
    as [-> | [Hrun [-> | [-> | [-> | ->]]]]]; repeat split; reflexivity.
Qed.

Lemma runCallback_laneInv (id : nat) (cb : Callback) (v : World) :
  laneInv v -> laneInv (runCallback id cb v).
Proof.
  intros [Hg Hall]. unfold laneInv.
  destruct cb; cbn [runCallback].
  - destruct (currentTime (scoreboard v) =? 0); cbn;
      [split; [exact Hg | constructor] | now split].
  - destruct (running (scoreboard v)).
    + destruct (BonusItem_new (rng (set_bonusItems [] v))) as [b g] eqn:E.
      cbn. split; [| exact Hall].
      unfold BonusItem_new, Math_random in E. cbn in E.
      injection E as _ <-. intros n. apply (Hg (S (S n))).
    + cbn. now split.
  - now split.
  - cbn. destruct (running (scoreboard v)); now split.
  - cbn. destruct (running (scoreboard v)); now split.
  - now split.
Qed.

Lemma step_laneInv (ev : Event) (w : World) :
  laneInv w -> laneInv (step w ev).
Proof.
  intros Hinv. destruct ev; cbn [step].
  - now apply startGame_laneInv.
  - destruct (Scoreboard_update_enemies w) as (He & Hr & _).
    unfold laneInv. now rewrite He, Hr.
  - exact Hinv.
  - destruct Hinv as [Hg Hall]. unfold laneInv, updateAllEnemies.
    destruct (updateEnemies_laneInv dt (allEnemies w) (rng w) Hg Hall)
      as [Hg' Hall'].
    destruct (updateEnemies dt (allEnemies w) (rng w)) as [l g'].
    now split.
  - exact Hinv.
  - destruct (fire id w) as [w' |] eqn:Hfire; [| exact Hinv].
    destruct (fire_inversion id w w' Hfire)
      as (cb & v & -> & _ & _ & _ & He & Hr).
    apply runCallback_laneInv. unfold laneInv. now rewrite He, Hr.
Qed.

(** X16.  As long as [Math.random()] keeps to the unit interval, every
    enemy on the page, in every state the page can reach, is in one of the
    lanes 1 to 3, has a speed from 75 to 320 and is not beyond the right
    boundary 606. *)
Theorem reachable_enemies_in_lane (g : Rng) (evs : list Event) :
  unit_interval g ->
  Forall (fun e => inLane e /\ (x (e_char e) <= 606)%Q)
    (allEnemies (run evs (initialWorld g))).
Proof.
  intros Hg.
  assert (H : forall w, laneInv w -> laneInv (run evs w)).
  { unfold run. induction evs as [| ev evs IH]; intros w Hinv;
      cbn [fold_left]; [exact Hinv | apply IH, step_laneInv, Hinv]. }
  apply (H (initialWorld g)). split; [exact Hg | constructor].
Qed.

Lemma reachable_enemies_in_lane_witness :
  Forall (fun e => inLane e /\ (x (e_char e) <= 606)%Q)
    (allEnemies
       (run [EvStartGame; EvEnemiesUpdate 3; EvEnemiesUpdate 3]
          (initialWorld halves))).
Proof.
  apply (reachable_enemies_in_lane halves).
  intros n. split; vm_compute; [discriminate | reflexivity].
Defined.

(** ** Score and batch size *)

(** No timer callback changes the score, and none sets the running flag;
    while the flag stays up the enemies stay. *)
Lemma runCallback_effect (id : nat) (cb : Callback) (v : World) :
  score (scoreboard (runCallback id cb v)) = score (scoreboard v) /\
  (running (scoreboard (runCallback id cb v)) = true ->
   running (scoreboard v) = true /\
   allEnemies (runCallback id cb v) = allEnemies v).
Proof.
  destruct cb; cbn [runCallback].
  - destruct (currentTime (scoreboard v) =? 0); cbn;
      split; try reflexivity; try discriminate; auto.
  - destruct (running (scoreboard v)) eqn:Hrun.
    + destruct (BonusItem_new (rng (set_bonusItems [] v))) as [b g]. cbn.
      rewrite Hrun. auto.
    + cbn. rewrite Hrun. split; [reflexivity | discriminate].
  - cbn. auto.
  - cbn. destruct (running (scoreboard v)) eqn:Hrun; cbn; rewrite ?Hrun; auto.
  - cbn. destruct (running (scoreboard v)) eqn:Hrun; cbn; rewrite ?Hrun; auto.
  - cbn. auto.
Qed.

Lemma step_score (ev : Event) (w : World) :
  Z.abs (score (scoreboard (step w ev)) - score (scoreboard w))
  <= (if isScoreboardUpdate ev then 1 else 0).
Proof.
  destruct ev; cbn [step isScoreboardUpdate].
  - destruct (startGame_frame w) as (_ & -> & _). cbn. lia.
  - destruct (Scoreboard_update_shape w)
      as [-> | [Hrun [-> | [-> | [-> | ->]]]]]; cbn; lia.
  - cbn. lia.
  - destruct (updateAllEnemies_frame dt w) as (_ & -> & _). lia.
  - cbn. lia.
  - destruct (fire id w) as [w' |] eqn:Hfire; [| lia].
    destruct (fire_inversion id w w' Hfire)
      as (cb & v & -> & _ & Hs & _).
    destruct (runCallback_effect id cb v) as [-> _]. rewrite Hs. lia.
Qed.

(** X17.  Only Scoreboard updates move the score, each by at most one
    point: over any run of the page, from any state, the score changes by
    no more than the number of Scoreboard updates in it.  In particular
    starting a new game does not reset the score. *)
Theorem score_moves_with_updates (evs : list Event) (w : World) :
  Z.abs (score (scoreboard (run evs w)) - score (scoreboard w))
  <= Z.of_nat (List.length (filter isScoreboardUpdate evs)) /\
  score (scoreboard (startGame w)) = score (scoreboard w).
Proof.
  split.
  - unfold run. revert w. induction evs as [| ev evs IH]; intros w;
      cbn [fold_left filter].
    + cbn. lia.
    + specialize (IH (step w ev)). pose proof (step_score ev w) as Hstep.
      destruct (isScoreboardUpdate ev); cbn [List.length]; lia.
  - destruct (startGame_frame w) as (_ & -> & _). reflexivity.
Qed.

Lemma step_batchInv (ev : Event) (w : World) :
  worldInv w -> batchInv w ->
  (ev = EvStartGame -> running (scoreboard w) = false) ->
  batchInv (step w ev).
Proof.
  intros Hinv Hbatch Hlegal. unfold batchInv in *.
  destruct ev; cbn [step].
  - destruct (startGame_frame w) as (-> & _). intros _.
    destruct Hinv as (_ & _ & _ & _ & Hidle).
    destruct (Hidle (Hlegal eq_refl)) as (_ & _ & _ & -> & _). reflexivity.
  - destruct (Scoreboard_update_enemies w) as (-> & _ & ->). exact Hbatch.
  - exact Hbatch.
  - destruct (updateAllEnemies_frame dt w) as (_ & -> & _ & _ & _ & ->).
    exact Hbatch.
  - exact Hbatch.
  - destruct (fire id w) as [w' |] eqn:Hfire; [| exact Hbatch].
    destruct (fire_inversion id w w' Hfire)
      as (cb & v & -> & _ & Hs & _ & He & _).
    intros Hrun. destruct (runCallback_effect id cb v) as [_ Heff].
    destruct (Heff Hrun) as [Hrun' ->]. rewrite He. apply Hbatch.
    now rewrite <- Hs.
Qed.

(** X18.  If [startGame] is only ever called on a game that is not running,
    then in every state the page reaches there are exactly seven enemies
    while the game runs and none while it does not. *)
Theorem reachable_batch_of_seven (g : Rng) (evs : list Event) :
  startsWhenIdle (initialWorld g) evs ->
  List.length (allEnemies (run evs (initialWorld g)))
  = (if running (scoreboard (run evs (initialWorld g))) then 7 else 0)%nat.
Proof.
  intros Hlegal.
  assert (H : forall w, worldInv w -> batchInv w -> startsWhenIdle w evs ->
                worldInv (run evs w) /\ batchInv (run evs w)).
  { clear. unfold run. induction evs as [| ev evs IH];
      intros w Hinv Hbatch Hlegal; cbn [fold_left]; [now split |].
    destruct Hlegal as [Hnow Hlater].
    apply IH; [now apply step_worldInv | now apply step_batchInv | exact Hlater]. }
  destruct (H (initialWorld g) (initialWorld_worldInv g)) as [Hinv Hbatch];
    [intros Hrun; discriminate Hrun | exact Hlegal |].
  destruct (running (scoreboard (run evs (initialWorld g)))) eqn:Hrun.
  - now apply Hbatch.
  - destruct Hinv as (_ & _ & _ & _ & Hidle).
    destruct (Hidle Hrun) as (_ & _ & _ & -> & _). reflexivity.
Qed.

Lemma reachable_batch_of_seven_witness :
  List.length
    (allEnemies
       (run [EvStartGame; EvEnemiesUpdate 3; EvScoreboardUpdate; EvTimer 0]
          (initialWorld halves)))
  = 7%nat.
Proof.
  apply (reachable_batch_of_seven halves
           [EvStartGame; EvEnemiesUpdate 3; EvScoreboardUpdate; EvTimer 0]).
  cbn [startsWhenIdle]. repeat split; discriminate.
Defined.

(** A second [startGame] on a running game. *)
Example double_start :
  List.length (allEnemies (run [EvStartGame; EvStartGame] (initialWorld halves)))
  = 14%nat /\
  List.length (timers (run [EvStartGame; EvStartGame] (initialWorld halves)))
  = 4%nat.
Proof. split; reflexivity. Qed.

(** ** After the game *)

Lemma runCallback_frozen (sc : Z) (id : nat) (cb : Callback) (v : World) :
  frozen sc v -> frozen sc (runCallback id cb v).
Proof.
  intros (Hrun & Hover & Hp & Hsc & He & Hb). unfold frozen.
  destruct cb; cbn [runCallback].
  - destruct (currentTime (scoreboard v) =? 0); cbn; rewrite ?Hp;
      repeat split; assumption || reflexivity.
  - rewrite Hrun. cbn. now repeat split.
  - cbn. now repeat split.
  - cbn. rewrite Hrun. cbn. now repeat split.
  - cbn. rewrite Hrun. cbn. now repeat split.
  - cbn. now repeat split.
Qed.

Lemma step_frozen (sc : Z) (ev : Event) (w : World) :
  isStart ev = false -> frozen sc w -> frozen sc (step w ev).
Proof.
  intros Hev Hfrozen. destruct ev; cbn [step]; [discriminate | | | | |].
  - unfold Scoreboard_update.
    rewrite checkWinAndCollision_idle; [exact Hfrozen | apply Hfrozen].
  - destruct Hfrozen as (Hrun & Hover & Hp & Hsc & He & Hb).
    unfold frozen. cbn. rewrite Hp. now repeat split.
  - destruct Hfrozen as (Hrun & Hover & Hp & Hsc & He & Hb).
    unfold frozen, updateAllEnemies. rewrite He. cbn. now repeat split.
  - destruct Hfrozen as (Hrun & Hover & Hp & Hsc & He & Hb).
    unfold frozen, onKeyup. cbn. rewrite Hp.
    rewrite handleInputArg_disabled by reflexivity. now repeat split.
  - destruct (fire id w) as [w' |] eqn:Hfire; [| exact Hfrozen].
    destruct (fire_inversion id w w' Hfire)
      as (cb & v & -> & Hp & Hs & Hb & He & _).
    apply runCallback_frozen. unfold frozen. now rewrite Hp, Hs, Hb, He.
Qed.

(** X19.  Once [handleGameOver] has run, nothing but [startGame] changes
    the outcome: through any frames, keys and timers the game stays stopped
    with the game-over flag up, the player stays on the start cell with
    moves disabled, the score stays what it was, and no enemy or bonus item
    appears. *)
Theorem game_over_is_stable (v : World) (evs : list Event) :
  forallb (fun ev => negb (isStart ev)) evs = true ->
  let w := run evs (handleGameOver v) in
  running (scoreboard w) = false /\
  gameOver (scoreboard w) = true /\
  player w = restingPlayer /\
  score (scoreboard w) = score (scoreboard v) /\
  allEnemies w = [] /\ bonusItems w = [].
Proof.
  intros Hevs w. subst w.
  assert (H : forall w, frozen (score (scoreboard v)) w ->
                frozen (score (scoreboard v)) (run evs w)).
  { unfold run. induction evs as [| ev evs IH]; intros w Hw;
      cbn [fold_left]; [exact Hw |].
    cbn [forallb] in Hevs. apply andb_true_iff in Hevs as [Hev Hrest].
    apply (IH Hrest), step_frozen; [now apply negb_true_iff | exact Hw]. }
  apply H. unfold frozen. cbn. now repeat split.
Qed.

Lemma game_over_is_stable_witness :
  player (run [EvKeyup 38; EvTimer 0; EvScoreboardUpdate; EvTimer 1]
            stoppedGame) = restingPlayer /\
  running (scoreboard
             (run [EvKeyup 38; EvTimer 0; EvScoreboardUpdate; EvTimer 1]
                stoppedGame)) = false.
Proof.
  destruct (game_over_is_stable freshGame
              [EvKeyup 38; EvTimer 0; EvScoreboardUpdate; EvTimer 1] eq_refl)
    as (Hrun & _ & Hp & _).
  split; [exact Hp | exact Hrun].
Defined.

(** ** Starting twice *)

Lemma findTimer_app_some (id : nat) (l l' : list Timer) (t : Timer) :
  findTimer id l = Some t -> findTimer id (l ++ l') = Some t.
Proof.
  unfold findTimer. induction l as [| u l IH]; cbn [app find];
    [discriminate |].
  destruct (Nat.eqb (tid u) id); [trivial | exact IH].
Qed.

Lemma countdownActive_app (id : nat) (w : World) (l : list Timer) (v : World) :
  timers v = timers w ++ l -> countdownActive id w -> countdownActive id v.
Proof.
  intros Ht (t & Hfind & Hrep & Hact). exists t. rewrite Ht.
  repeat split; try assumption. now apply findTimer_app_some.
Qed.

(** X20.  [startGame] cancels nothing and removes nothing: from any state it
    adds seven enemies to those already there, appends its two intervals
    to the timer table, and leaves every countdown that was in the table
    still there, next to the new one.  A game started while one is running
    therefore has a double batch and two countdowns on the one clock. *)
Theorem startGame_only_adds (id : nat) (w : World) :
  timersBelow w ->
  List.length (allEnemies (startGame w))
  = (List.length (allEnemies w) + 7)%nat /\
  timers (startGame w) = timers w ++ startedTimers (nextTimer w) /\
  countdownActive (nextTimer w) (startGame w) /\
  (countdownActive id w ->
   countdownActive id (startGame w) /\ id <> nextTimer w).
Proof.
  intros Hbelow. destruct (startGame_frame w) as (Hlen & _ & _ & _ & Ht).
  split; [exact Hlen |]. split; [exact Ht |]. split.
  - unfold countdownActive. rewrite Ht. unfold startedTimers.
    change (timers w ++ [?a; ?b]) with (timers w ++ [a] ++ [b]).
    rewrite app_assoc.
    set (t := {| tid := nextTimer w; repeating := true; delay := 1000;
                 action := CountdownTick |}).
    exists t. repeat split.
    apply findTimer_app_some.
    apply (findTimer_fresh (timers w) t (timersBelow_fresh w Hbelow)).
  - intros Hact. split; [now apply (countdownActive_app id w _ _ Ht) |].
    destruct Hact as (t & Hfind & _). unfold findTimer in Hfind.
    apply find_some in Hfind as [Hin Hid]. apply Nat.eqb_eq in Hid.
    unfold timersBelow in Hbelow. rewrite Forall_forall in Hbelow.
    specialize (Hbelow t Hin). lia.
Qed.

Lemma startGame_only_adds_witness :
  countdownActive 0 (startGame freshGame) /\
  countdownActive 2 (startGame freshGame) /\
  List.length (allEnemies (startGame freshGame)) = 14%nat.
Proof.
  assert (Hbelow : timersBelow freshGame).
  { unfold timersBelow. cbn. repeat constructor. }
  destruct (startGame_only_adds 0 freshGame Hbelow)
    as (Hlen & _ & Hnew & Hold).
  split; [| split; [exact Hnew | exact Hlen]].
  apply Hold.
  exists {| tid := 0; repeating := true; delay := 1000;
            action := CountdownTick |}.
  repeat split; reflexivity.
Defined.

(** ** The timer table *)

Lemma timersBelow_add (l : list Timer) (n : nat) (t : Timer) :
  Forall (fun u => (tid u < n)%nat) l -> tid t = n ->
  Forall (fun u => (tid u < S n)%nat) (l ++ [t]).
Proof.
  intros Hl Ht. apply Forall_app. split.
  - revert Hl. apply Forall_impl. intros u Hu. lia.
  - constructor; [lia | constructor].
Qed.

Lemma timersBelow_remove (id : nat) (l : list Timer) (n : nat) :
  Forall (fun u => (tid u < n)%nat) l ->
  Forall (fun u => (tid u < n)%nat) (removeTimer id l).
Proof.
  intros Hl. unfold removeTimer. rewrite Forall_forall in *.
  intros u Hu. apply filter_In in Hu. now apply Hl.
Qed.

Lemma setTimeout_timersBelow (cb : Callback) (ms : Z) (w : World) :
  timersBelow w -> timersBelow (setTimeout cb ms w).
Proof. intros H. now apply timersBelow_add. Qed.

Lemma setInterval_timersBelow (cb : Callback) (ms : Z) (w : World) :
  timersBelow w -> timersBelow (setInterval cb ms w).
Proof. intros H. now apply timersBelow_add. Qed.

Lemma clearInterval_timersBelow (id : nat) (w : World) :
  timersBelow w -> timersBelow (clearInterval id w).
Proof. intros H. now apply timersBelow_remove. Qed.

Lemma runCallback_timersBelow (id : nat) (cb : Callback) (v : World) :
  timersBelow v -> timersBelow (runCallback id cb v).
Proof.
  intros H. destruct cb; cbn [runCallback].
  - destruct (currentTime (scoreboard v) =? 0); [| exact H].
    apply (clearInterval_timersBelow id) in H. exact H.
  - destruct (running (scoreboard v)).
    + destruct (BonusItem_new (rng (set_bonusItems [] v))) as [b g].
      apply (setTimeout_timersBelow BonusExpire 4000) in H. exact H.
    + apply (clearInterval_timersBelow id) in H. exact H.
  - exact H.
  - cbn. destruct (running (scoreboard v)); exact H.
  - cbn. destruct (running (scoreboard v)); exact H.
  - exact H.
Qed.

Lemma startGame_timersBelow (w : World) :
  timersBelow w -> timersBelow (startGame w).
Proof.
  intros H.
  change (startGame w) with
    (startGame_tail
       (repeat_times 7 pushEnemy
          (with_scoreboard (set_gameOver false)
             (with_scoreboard (set_currentTime GAME_TIME)
                (with_scoreboard (set_running true) w))))).
  match goal with
  | |- timersBelow (startGame_tail ?X) =>
      destruct (pushEnemy_loop_frame 7
                  (with_scoreboard (set_gameOver false)
                     (with_scoreboard (set_currentTime GAME_TIME)
                        (with_scoreboard (set_running true) w))))
        as (_ & _ & _ & _ & Ht & Hn);
      assert (HX : timersBelow X)
        by (unfold timersBelow; rewrite Ht, Hn; exact H);
      generalize dependent X
  end.
  intros X _ _ HX. unfold startGame_tail, countdown, manageBonusItems.
  apply setInterval_timersBelow, setInterval_timersBelow. exact HX.
Qed.

Lemma step_timersBelow (ev : Event) (w : World) :
  timersBelow w -> timersBelow (step w ev).
Proof.
  intros H. destruct ev; cbn [step].
  - now apply startGame_timersBelow.
  - destruct (Scoreboard_update_shape w)
      as [-> | [Hrun [-> | [-> | [-> | ->]]]]]; [exact H | | | |].
    + now apply (setTimeout_timersBelow EndWin 750) in H.
    + now apply (setTimeout_timersBelow EndLose 750) in H.
    + now apply (setTimeout_timersBelow EndBonus 500) in H.
    + apply (setTimeout_timersBelow EndLose 750) in H.
      now apply (setTimeout_timersBelow EndBonus 500) in H.
  - exact H.
  - unfold updateAllEnemies.
    destruct (updateEnemies dt (allEnemies w) (rng w)). exact H.
  - exact H.
  - unfold fire. destruct (findTimer id (timers w)) as [t |]; [| exact H].
    apply runCallback_timersBelow.
    destruct (repeating t); [exact H | now apply clearInterval_timersBelow].
Qed.

(** On the page every timer in the table carries an identifier smaller
    than the next one to be handed out. *)
Lemma reachable_timers_below (g : Rng) (evs : list Event) :
  Forall (fun t => (tid t < nextTimer (run evs (initialWorld g)))%nat)
    (timers (run evs (initialWorld g))).
Proof.
  assert (H : forall w, timersBelow w -> timersBelow (run evs w)).
  { unfold run. induction evs as [| ev evs IH]; intros w Hw;
      cbn [fold_left]; [exact Hw | apply IH, step_timersBelow, Hw]. }
  apply (H (initialWorld g)). constructor.
Qed.

(** ** Bonus items come and go *)

Lemma BonusItem_new_cell (g : Rng) :
  unit_interval g ->
  exists r c : Z,
    1 <= r <= 2 /\ 0 <= c <= 4 /\
    b_char (fst (BonusItem_new g)) = cellAt r c.
Proof.
  intros Hg. destruct (Hg O) as [H0 H1]. destruct (Hg 1%nat) as [H2 H3].
  exists (Math_floor (g 1%nat * inject_Z (3 - 1)) + 1).
  exists (Math_floor (g O * inject_Z MAP_COLS)).
  assert (0 <= Math_floor (g 1%nat * inject_Z (3 - 1)) < 2).
  { apply Math_floor_range; change (inject_Z (3 - 1)) with 2%Q;
      [| change (inject_Z 2) with 2%Q]; lra. }
  assert (0 <= Math_floor (g O * inject_Z MAP_COLS) < 5).
  { apply Math_floor_range; change (inject_Z MAP_COLS) with 5%Q;
      [| change (inject_Z 5) with 5%Q]; lra. }
  repeat split; lia.
Qed.

(** X22.  A bonus-spawn tick on a running game replaces whatever bonus
    items there were by exactly one new item, on a cell of row 1 or 2, and
    schedules its removal; when that timeout fires the item list is empty
    again and the timer table is as it was before the tick. *)
Theorem bonus_spawn_then_expire (id : nat) (w : World) :
  timersBelow w ->
  unit_interval (rng w) ->
  running (scoreboard w) = true ->
  let w1 := runCallback id BonusSpawnTick w in
  (exists b r c,
      bonusItems w1 = [b] /\
      1 <= r <= 2 /\ 0 <= c <= 4 /\ b_char b = cellAt r c) /\
  exists w2,
    fire (nextTimer w) w1 = Some w2 /\
    bonusItems w2 = [] /\
    timers w2 = timers w.
Proof.
  intros Hbelow Hg Hrun w1. subst w1. cbn [runCallback]. rewrite Hrun.
  destruct (BonusItem_new_cell (rng w) Hg) as (r & c & Hr & Hc & Hcell).
  change (rng (set_bonusItems [] w)) with (rng w).
  destruct (BonusItem_new (rng w)) as [b g] eqn:E. cbn [fst] in Hcell.
  split.
  - exists b, r, c. repeat split; try lia; try assumption.
  - eexists. split.
    + match goal with
      | |- fire _ (setTimeout ?cb ?ms ?v) = _ =>
          apply (fire_scheduled cb ms v Hbelow)
      end.
    + split; reflexivity.
Qed.

Lemma bonus_spawn_then_expire_witness :
  exists w2,
    fire 2 (runCallback 1 BonusSpawnTick freshGame) = Some w2 /\
    bonusItems w2 = [] /\
    timers w2 = timers freshGame.
Proof.
  assert (Hbelow : timersBelow freshGame).
  { unfold timersBelow. cbn. repeat constructor. }
  assert (Hg : unit_interval (rng freshGame)).
  { intros n. split; vm_compute; [discriminate | reflexivity]. }
  apply (bonus_spawn_then_expire 1 freshGame Hbelow Hg eq_refl).
Defined.

Lemma reachable_idle_is_inert_witness :
  movingEnabled
    (player (run (EvStartGame :: repeat (EvTimer 0) 61) (initialWorld halves)))
  = false /\
  allEnemies (run (EvStartGame :: repeat (EvTimer 0) 61) (initialWorld halves))
  = [].
Proof.
  destruct (reachable_idle_is_inert halves
              (EvStartGame :: repeat (EvTimer 0) 61)) as [Hidle _].
  destruct Hidle as (Hmoves & _ & _ & Hnone & _);
    [vm_compute; reflexivity | exact (conj Hmoves Hnone)].
Defined.

(** ** Safe rows *)

(** X23.  With every enemy in one of its lanes, a player drawn on a cell
    can only be hit on rows 1 to 3: on the water row and on the two grass
    rows the enemy test of an update never succeeds. *)
Theorem hit_only_in_lanes (w : World) (r c : Z) :
  p_char (player w) = cellAt r c ->
  Forall inLane (allEnemies w) ->
  hazardHit w = true ->
  1 <= r <= 3.
Proof.
  intros Hcell Hlanes Hhit. unfold hazardHit in Hhit.
  apply existsb_exists in Hhit as (e & Hin & Hcol).
  rewrite Forall_forall in Hlanes.
  destruct (Hlanes e Hin) as [(r' & Hr' & Hy) _].
  apply collisionDims_window in Hcol as [_ Hdown].
  rewrite Hcell, Hy in Hdown. cbn [cellAt y] in Hdown.
  change 57%Q with (inject_Z 57) in Hdown.
  apply inject_Z_window in Hdown.
  unfold getYOffsetForRow, Y_START, Y_OFFSET in Hdown. lia.
Qed.

Lemma hit_only_in_lanes_witness :
  hazardHit bugOnly = true /\ 1 <= row (player bugOnly) <= 3.
Proof.
  split; [vm_compute; reflexivity |].
  apply (hit_only_in_lanes bugOnly 1 0).
  - reflexivity.
  - repeat constructor.
    + exists 1. split; [lia | reflexivity].
    + vm_compute. discriminate.
    + vm_compute. discriminate.
  - vm_compute. reflexivity.
Defined.

(** ** The countdown on the page *)

Lemma handleGameOver_halted (v : World) : halted v -> handleGameOver v = v.
Proof.
  destruct v as [p [sc wn ls bn ct rn go] b e t n g].
  unfold halted. cbn. intros (-> & -> & -> & -> & -> & _). reflexivity.
Qed.

Lemma runCallback_halted (id : nat) (cb : Callback) (v : World) :
  halted v -> halted (runCallback id cb v).
Proof.
  intros (Hrun & Hover & Hp & He & Hb & Hclock). unfold halted.
  destruct cb; cbn [runCallback].
  - rewrite Hclock. cbn. rewrite ?Hp. now repeat split.
  - rewrite Hrun. cbn. now repeat split.
  - cbn. now repeat split.
  - cbn. rewrite Hrun. cbn. now repeat split.
  - cbn. rewrite Hrun. cbn. now repeat split.
  - cbn. now repeat split.
Qed.

(** The only callback that lowers the running flag is the countdown's, on
    finding the clock at zero, and what it leaves is a halted game. *)
Lemma runCallback_halts (id : nat) (cb : Callback) (v : World) :
  running (scoreboard v) = true ->
  running (scoreboard (runCallback id cb v)) = false ->
  halted (runCallback id cb v).
Proof.
  intros Hrun. destruct cb; cbn [runCallback].
  - destruct (Z.eqb_spec (currentTime (scoreboard v)) 0) as [E | E].
    + intros _. unfold halted. cbn. now repeat split.
    + cbn. congruence.
  - rewrite Hrun.
    destruct (BonusItem_new (rng (set_bonusItems [] v))) as [b g]. cbn.
    congruence.
  - cbn. congruence.
  - cbn. rewrite Hrun. cbn. congruence.
  - cbn. rewrite Hrun. cbn. congruence.
  - cbn. congruence.
Qed.

Lemma halted_fields (v w : World) :
  player v = player w -> scoreboard v = scoreboard w ->
  bonusItems v = bonusItems w -> allEnemies v = allEnemies w ->
  halted w -> halted v.
Proof. unfold halted. now intros -> -> -> ->. Qed.

Lemma step_haltInv (ev : Event) (w : World) :
  haltInv w -> haltInv (step w ev).
Proof.
  intros Hinv. unfold haltInv in *. destruct ev; cbn [step].
  - destruct (startGame_frame w) as (_ & -> & _). cbn. discriminate.
  - destruct (Scoreboard_update_enemies w) as (_ & _ & Hr). rewrite Hr.
    intros Hrun. unfold Scoreboard_update.
    rewrite (checkWinAndCollision_idle w Hrun). now apply Hinv.
  - cbn [with_player scoreboard timers]. intros Hrun.
    destruct (Hinv Hrun) as [Hnone | Hhalt]; [now left | right].
    destruct Hhalt as (? & ? & Hp & ? & ? & ?). unfold halted. cbn.
    rewrite Hp. now repeat split.
  - destruct (updateAllEnemies_frame dt w) as (Hp & Hs & Hb & Ht & _ & Hlen).
    rewrite Hs, Ht. intros Hrun.
    destruct (Hinv Hrun) as [Hnone | Hhalt]; [now left | right].
    destruct Hhalt as (? & ? & Hpl & He & Hbo & ?). unfold halted.
    rewrite Hp, Hs, Hb. repeat split; try assumption.
    apply length_zero_iff_nil. rewrite Hlen, He. reflexivity.
  - unfold onKeyup. cbn [with_player scoreboard timers]. intros Hrun.
    destruct (Hinv Hrun) as [Hnone | Hhalt]; [now left | right].
    destruct Hhalt as (? & ? & Hp & ? & ? & ?). unfold halted. cbn.
    rewrite Hp. rewrite handleInputArg_disabled by reflexivity.
    now repeat split.
  - destruct (fire id w) as [w' |] eqn:Hfire; [| exact Hinv].
    intros Hrun'.
    destruct (running (scoreboard w)) eqn:Hrun.
    + right. destruct (fire_inversion id w w' Hfire)
        as (cb & v & -> & _ & Hs & _ & _ & _).
      apply runCallback_halts; [now rewrite Hs | exact Hrun'].
    + destruct (Hinv eq_refl) as [Hnone | Hhalt].
      * unfold fire in Hfire. rewrite Hnone in Hfire. discriminate.
      * right. destruct (fire_inversion id w w' Hfire)
          as (cb & v & -> & Hp & Hs & Hb & He & _).
        apply runCallback_halted. now apply (halted_fields v w).
Qed.

Lemma run_haltInv (evs : list Event) :
  forall w, haltInv w -> haltInv (run evs w).
Proof.
  unfold run. induction evs as [| ev evs IH]; intros w Hinv; cbn [fold_left];
    [exact Hinv | apply IH, step_haltInv, Hinv].
Qed.

Lemma countdownActive_halted (id : nat) (w : World) :
  haltInv w -> running (scoreboard w) = false -> countdownActive id w ->
  halted w.
Proof.
  intros Hinv Hrun (t & Hfind & _). destruct (Hinv Hrun) as [Hnone | Hhalt];
    [| exact Hhalt].
  rewrite Hnone in Hfind. discriminate.
Qed.

(** C9.  In every state the page can reach, a tick of a registered
    countdown behaves by the running flag as the claim says.  If the flag
    is down the tick cancels its interval and changes nothing else.  If the
    flag is up and time is left it takes one second off the clock and
    changes nothing else.  If the flag is up and the clock is at zero it
    cancels its interval and calls [handleGameOver()]; that interval never
    fires again, and any other countdown still registered then only cancels
    itself, so the game is ended once. *)
Theorem countdown_tick_on_page (g : Rng) (evs : list Event) (id : nat) :
  let w := run evs (initialWorld g) in
  countdownActive id w ->
  (running (scoreboard w) = false -> fire id w = Some (clearInterval id w)) /\
  (running (scoreboard w) = true -> currentTime (scoreboard w) <> 0 ->
   fire id w = Some (tickDown w)) /\
  (running (scoreboard w) = true -> currentTime (scoreboard w) = 0 ->
   fire id w = Some (handleGameOver (clearInterval id w)) /\
   fire id (handleGameOver (clearInterval id w)) = None /\
   forall id',
     countdownActive id' (handleGameOver (clearInterval id w)) ->
     fire id' (handleGameOver (clearInterval id w))
     = Some (clearInterval id' (handleGameOver (clearInterval id w)))).
Proof.
  intros w Hact.
  assert (Hinv : haltInv w).
  { apply run_haltInv. intros _. now left. }
  assert (Hdown : forall v i, halted v -> countdownActive i v ->
                    fire i v = Some (clearInterval i v)).
  { intros v i Hhalt Hi. rewrite (fire_countdown i v Hi).
    destruct Hhalt as (Hr & Ho & Hp & He & Hb & Hc). rewrite Hc. cbn [Z.eqb].
    f_equal. apply handleGameOver_halted. unfold halted. cbn.
    now repeat split. }
  split; [| split].
  - intros Hrun. apply Hdown; [| exact Hact].
    now apply (countdownActive_halted id).
  - intros _ Hne. rewrite (fire_countdown id w Hact).
    apply Z.eqb_neq in Hne. now rewrite Hne.
  - intros Hrun Hz. rewrite (fire_countdown id w Hact), Hz. cbn [Z.eqb].
    split; [reflexivity |]. split; [apply fire_cleared |].
    intros id' Hact'. apply Hdown; [| exact Hact'].
    unfold halted. cbn. now repeat split.
Qed.

Lemma countdown_tick_on_page_witness :
  fire 2 (run doubleStartRunDown (initialWorld halves))
  = Some (clearInterval 2 (run doubleStartRunDown (initialWorld halves))) /\
  fire 0 (run [EvStartGame; EvTimer 0] (initialWorld halves))
  = Some (tickDown (run [EvStartGame; EvTimer 0] (initialWorld halves))).
Proof.
  pose proof (countdown_tick_on_page halves doubleStartRunDown 2) as Hover.
  pose proof (countdown_tick_on_page halves [EvStartGame; EvTimer 0] 0)
    as Hgoing.
  cbv zeta in Hover, Hgoing.
  assert (Hact2 : countdownActive 2
                    (run doubleStartRunDown (initialWorld halves))).
  { exists {| tid := 2; repeating := true; delay := 1000;
              action := CountdownTick |}.
    repeat split; vm_compute; reflexivity. }
  assert (Hact0 : countdownActive 0
                    (run [EvStartGame; EvTimer 0] (initialWorld halves))).
  { exists {| tid := 0; repeating := true; delay := 1000;
              action := CountdownTick |}.
    repeat split; vm_compute; reflexivity. }
  destruct (Hover Hact2) as (Hdown & _).
  destruct (Hgoing Hact0) as (_ & Htick & _).
  split.
  - apply Hdown. vm_compute. reflexivity.
  - apply Htick; vm_compute; [reflexivity | discriminate].
Defined.
